(** * The ASPASIA policy engine: conditions, rule loading, decision resolution

    A shallow embedding of the engine of [aspasia-pilot/main.py] (the same
    code appears in [api_server.py] and [app.py]): the condition tree
    ([Condition], [CompositeCondition]), the rule compiler ([build_node],
    [load_rules_from_yaml]), [PolicyEngine.evaluate] and the administrative
    [update_policy] endpoint.

    Python values are dynamically typed, so transactions, rule
    specifications and the fields of the dataclasses are all terms of one
    type [value]; a raised exception is the [Err] branch of [result]. *)

From Stdlib Require Import ZArith QArith Bool List String Ascii Lia.
From Stdlib Require Import Permutation Sorted OrderedTypeEx.
Import ListNotations.
Open Scope Z_scope.
Open Scope string_scope.
Open Scope list_scope.

Set Implicit Arguments.
Set Warnings "-register-all".

(** ** Python values *)

(** The values JSON and plain YAML produce.  A [str] is the sequence of
    its UTF-8 bytes (byte order is code point order, and "." is one byte).
    A finite [float] is the rational it denotes: Python compares numbers
    exactly, also an [int] with a [float]; nan and the infinities have no
    counterpart, nor have the sets, bytes and dates that tagged or dated
    YAML gives.  A [dict] is its items in insertion order, keys being
    strings; lookup takes the first item with the key. *)
Inductive value : Type :=
  | VNone
  | VBool (b : bool)
  | VInt (n : Z)
  | VFloat (q : Q)
  | VStr (s : string)
  | VList (l : list value)
  | VDict (d : list (string * value)).

(** ** Exceptions *)

(** [UnknownOperator op] is [ValueError(f"Unknown operator: {op!r}")]; the
    other constructors are the builtin exceptions of the same name. *)
Inductive error : Type :=
  | KeyError
  | TypeError
  | AttributeError
  | ValueError
  | UnknownOperator (op : value).

Inductive result (A : Type) : Type :=
  | Ok (a : A)
  | Err (e : error).

Arguments Ok {A} a.
Arguments Err {A} e.

Definition bind {A B : Type} (m : result A) (k : A -> result B) : result B :=
  match m with
  | Ok a => k a
  | Err e => Err e
  end.

Notation "x <- m ;; k" := (bind m (fun x => k))
  (at level 61, m at next level, right associativity).

Definition raises {A : Type} (m : result A) : Prop :=
  exists e, m = Err e.

(** ** Builtin operations on values *)

Module Py.

(** [d.get(k)] as an option, and the membership test [k in d]. *)
Fixpoint lookup (k : string) (d : list (string * value)) : option value :=
  match d with
  | [] => None
  | (k', v) :: d' => if String.eqb k' k then Some v else lookup k d'
  end.

Definition has_key (k : string) (d : list (string * value)) : bool :=
  match lookup k d with Some _ => true | None => false end.

(** [d[k]] on a dict. *)
Definition item (d : list (string * value)) (k : string) : result value :=
  match lookup k d with Some v => Ok v | None => Err KeyError end.

(** [v[k]] for a str [k]: a list or a str takes integer indices only, and
    the other values are not subscriptable. *)
Definition getitem (v : value) (k : string) : result value :=
  match v with
  | VDict d => item d k
  | _ => Err TypeError
  end.

(** [v.get(k, default)]: only a dict has [get]. *)
Definition get (v : value) (k : string) (default : value) : result value :=
  match v with
  | VDict d => Ok (match lookup k d with Some x => x | None => default end)
  | _ => Err AttributeError
  end.

(** bool is a subclass of int: [True] is 1 and [False] is 0. *)
Definition num (v : value) : option Q :=
  match v with
  | VBool b => Some (inject_Z (if b then 1 else 0))
  | VInt n => Some (inject_Z n)
  | VFloat q => Some q
  | _ => None
  end.

(** [v == w]: numbers by value, strings and lists by content, dicts by
    their items whatever the order; values of different kinds differ. *)
Fixpoint eq (v w : value) {struct v} : bool :=
  match v, w with
  | VNone, VNone => true
  | VStr a, VStr b => String.eqb a b
  | VList l, VList m =>
      (fix eq_list (l m : list value) {struct l} : bool :=
         match l, m with
         | [], [] => true
         | x :: l', y :: m' => eq x y && eq_list l' m'
         | _, _ => false
         end) l m
  | VDict d, VDict e =>
      Nat.eqb (List.length d) (List.length e) &&
      (fix eq_items (d : list (string * value)) : bool :=
         match d with
         | [] => true
         | (k, x) :: d' =>
             match lookup k e with
             | Some y => eq x y
             | None => false
             end && eq_items d'
         end) d
  | (VBool _ | VInt _ | VFloat _), _ =>
      match num v, num w with
      | Some a, Some b => Qeq_bool a b
      | _, _ => false
      end
  | _, _ => false
  end.

(** [v < w]: numbers, two strings, or two lists (at the first position
    where they differ); anything else is a TypeError. *)
Fixpoint lt (v w : value) {struct v} : result bool :=
  match v, w with
  | VStr a, VStr b => Ok (String.ltb a b)
  | VList l, VList m =>
      (fix lt_list (l m : list value) {struct l} : result bool :=
         match l, m with
         | [], [] => Ok false
         | [], _ :: _ => Ok true
         | _ :: _, [] => Ok false
         | x :: l', y :: m' => if eq x y then lt_list l' m' else lt x y
         end) l m
  | (VBool _ | VInt _ | VFloat _), _ =>
      match num v, num w with
      | Some a, Some b => Ok (negb (Qle_bool b a))
      | _, _ => Err TypeError
      end
  | _, _ => Err TypeError
  end.

(** [v > w] is decided as [w < v] for every pair of builtin values. *)
Definition gt (v w : value) : result bool := lt w v.

Fixpoint is_substr (a s : string) : bool :=
  String.prefix a s ||
  match s with
  | EmptyString => false
  | String _ s' => is_substr a s'
  end.

(** [v in c]: substring of a str (the left operand must be a str), member
    of a list by [==], key of a dict (the left operand must be hashable);
    the other values are not containers. *)
Definition contains (c v : value) : result bool :=
  match c with
  | VStr s =>
      match v with
      | VStr a => Ok (is_substr a s)
      | _ => Err TypeError
      end
  | VList l => Ok (existsb (eq v) l)
  | VDict d =>
      match v with
      | VStr k => Ok (has_key k d)
      | VList _ | VDict _ => Err TypeError
      | _ => Ok false
      end
  | _ => Err TypeError
  end.

(** Truth value of an object, as [or] and [if] test it. *)
Definition truthy (v : value) : bool :=
  match v with
  | VNone => false
  | VBool b => b
  | VInt n => negb (Z.eqb n 0)
  | VFloat q => negb (Qeq_bool q 0)
  | VStr s => negb (String.eqb s "")
  | VList l => match l with [] => false | _ => true end
  | VDict d => match d with [] => false | _ => true end
  end.

(** [s.split(".")]: always at least one segment. *)
Fixpoint split_dots (s : string) : list string :=
  match s with
  | EmptyString => [""]
  | String c s' =>
      if Ascii.eqb c "."%char then "" :: split_dots s'
      else match split_dots s' with
           | seg :: segs => String c seg :: segs
           | [] => [String c ""]
           end
  end.

(** The items a [for] loop draws from a value: the elements of a list,
    the keys of a dict, the characters of a str (here one per byte; every
    use below fails on the first character whatever it is). *)
Definition iter (v : value) : result (list value) :=
  match v with
  | VList l => Ok l
  | VDict d => Ok (map (fun kv => VStr (fst kv)) d)
  | VStr s => Ok (map (fun c => VStr (String c "")) (list_ascii_of_string s))
  | _ => Err TypeError
  end.

End Py.

(** ** Condition nodes *)

(** The two dataclasses behind [Node = Union[Condition, CompositeCondition]].
    The annotations of the fields are not enforced at run time, so each
    field holds whatever the specification gave. *)
Inductive Node : Type :=
  | Condition (field op val : value)
  | CompositeCondition (mode : string) (children : list Node).

(** The loop of [Condition._get_nested], [current] being the accumulator. *)
Fixpoint walk (parts : list string) (current : value) : value :=
  match parts with
  | [] => current
  | part :: rest =>
      match current with
      | VDict d =>
          match Py.lookup part d with
          | Some next => walk rest next
          | None => VNone
          end
      | _ => VNone
      end
  end.

(** [Condition._get_nested]: only a str has [split]. *)
Definition _get_nested (field : value) (tx : value) : result value :=
  match field with
  | VStr path => Ok (walk (Py.split_dots path) tx)
  | _ => Err AttributeError
  end.

(** [self.op == "..."] *)
Definition op_is (op : value) (s : string) : bool := Py.eq op (VStr s).

(** [Condition.eval]. *)
Definition Condition_eval (field op val : value) (tx : value) : result bool :=
  v <- _get_nested field tx ;;
  match v with
  | VNone => Ok false
  | _ =>
      if op_is op "gt" then Py.gt v val
      else if op_is op "lt" then Py.lt v val
      else if op_is op "eq" then Ok (Py.eq v val)
      else if op_is op "in" then Py.contains val v
      else Err (UnknownOperator op)
  end.

(** [Node.eval]; [all] and [any] stop at the first child that decides, so a
    later child is not evaluated and cannot raise. *)
Fixpoint Node_eval (n : Node) (tx : value) : result bool :=
  match n with
  | Condition field op val => Condition_eval field op val tx
  | CompositeCondition mode children =>
      if String.eqb mode "all" then
        (fix all_ (cs : list Node) : result bool :=
           match cs with
           | [] => Ok true
           | c :: cs' => b <- Node_eval c tx ;; if b then all_ cs' else Ok false
           end) children
      else
        (fix any_ (cs : list Node) : result bool :=
           match cs with
           | [] => Ok false
           | c :: cs' => b <- Node_eval c tx ;; if b then Ok true else any_ cs'
           end) children
  end.

(** ** Rules and the rule compiler *)

Record Rule : Type := {
  name : value;
  root : Node;
  action : value;
  priority : Z
}.

(** A list comprehension or an appending [for] loop whose body may raise:
    the first exception ends it. *)
Fixpoint mapM {A B : Type} (f : A -> result B) (l : list A) : result (list B) :=
  match l with
  | [] => Ok []
  | x :: l' => y <- f x ;; ys <- mapM f l' ;; Ok (y :: ys)
  end.

(** [build_node].  Only a dict gets past the two membership tests and the
    subscript: a list or a str fails at [spec[mode]] or [spec["field"]], the
    other values at ["all" in spec].  The children of a composite are the
    items of [spec[mode]]; a key of a dict or a character of a str is a str,
    on which [build_node] fails.  [build_node_unfold] below states the
    equation of the source. *)
Fixpoint build_node (spec : value) : result Node :=
  match spec with
  | VDict d =>
      if Py.has_key "all" d || Py.has_key "any" d then
        let mode := if Py.has_key "all" d then "all" else "any" in
        children <-
          (fix subscript (e : list (string * value)) : result (list Node) :=
             match e with
             | [] => Err KeyError
             | (k, v) :: e' =>
                 if String.eqb k mode then
                   match v with
                   | VList cs =>
                       (fix each (cs : list value) : result (list Node) :=
                          match cs with
                          | [] => Ok []
                          | c :: cs' =>
                              n <- build_node c ;; ns <- each cs' ;; Ok (n :: ns)
                          end) cs
                   | VDict [] => Ok []
                   | VDict (_ :: _) => Err TypeError
                   | VStr EmptyString => Ok []
                   | VStr (String _ _) => Err TypeError
                   | _ => Err TypeError
                   end
                 else subscript e'
             end) d ;;
        Ok (CompositeCondition mode children)
      else
        field <- Py.item d "field" ;;
        op <- Py.item d "op" ;;
        val <- Py.item d "value" ;;
        Ok (Condition field op val)
  | _ => Err TypeError
  end.

(** The condition [load_rules_from_yaml] substitutes for a missing or empty
    [when]: [{"field": "__always__", "op": "eq", "value": True}]. *)
Definition always_spec : value :=
  VDict [("field", VStr "__always__"); ("op", VStr "eq"); ("value", VBool true)].

Section Loader.

(** [int(s)] for a str [s], [None] when it raises ValueError: the parser
    of Python's integer literals is not part of this repository. *)
Variable int_of_str : string -> option Z.

(** The builtin [int]: a float is truncated towards zero. *)
Definition py_int (v : value) : result Z :=
  match v with
  | VBool b => Ok (if b then 1 else 0)
  | VInt n => Ok n
  | VFloat q => Ok (Z.quot (Qnum q) (Zpos (Qden q)))
  | VStr s =>
      match int_of_str s with
      | Some n => Ok n
      | None => Err ValueError
      end
  | _ => Err TypeError
  end.

(** The body of the loop of [load_rules_from_yaml] for one item [r];
    the arguments of [Rule(...)] are evaluated in the order written. *)
Definition load_rule (r : value) : result Rule :=
  w <- Py.get r "when" VNone ;;
  let when_spec := if Py.truthy w then w else always_spec in
  name <- Py.getitem r "name" ;;
  root <- build_node when_spec ;;
  action <- Py.getitem r "action" ;;
  p <- Py.get r "priority" (VInt 0) ;;
  priority <- py_int p ;;
  Ok {| name := name; root := root; action := action; priority := priority |}.

(** [load_rules_from_yaml], from the document [yaml.safe_load] returned. *)
Definition load_rules_from_yaml (raw : value) : result (list Rule) :=
  items <- Py.iter raw ;;
  mapM load_rule items.

(** The reply of [update_policy]: the new rule count, or HTTP 400. *)
Inductive Reply : Type :=
  | PolicyUpdated (rule_count : nat)
  | Http400 (e : error).

(** [update_policy]: the global [engine] is the state; it is assigned
    only after the rules were loaded.  A text that [yaml.safe_load] rejects
    raises inside the same [try] and ends like a failed load. *)
Definition update_policy (raw : value) (engine : list Rule) : list Rule * Reply :=
  match load_rules_from_yaml raw with
  | Ok new_rules => (new_rules, PolicyUpdated (List.length new_rules))
  | Err e => (engine, Http400 e)
  end.

End Loader.

(** ** The policy engine *)

Module PolicyEngine.

(** [self.action_rank[a]] with [action_rank = {"block": 2, "flag": 1,
    "allow": 0}]: a key that is not there is a KeyError, a list or a dict
    cannot be hashed. *)
Definition action_rank (a : value) : result Z :=
  match a with
  | VStr s =>
      if String.eqb s "block" then Ok 2
      else if String.eqb s "flag" then Ok 1
      else if String.eqb s "allow" then Ok 0
      else Err KeyError
  | VList _ | VDict _ => Err TypeError
  | _ => Err KeyError
  end.

(** The sort key [(-r.priority, r.name)] and [<] on two such tuples: the
    first components that differ decide. *)
Definition sort_key (r : Rule) : Z * value := (- priority r, name r).

Definition sort_key_lt (a b : Z * value) : result bool :=
  if negb (Z.eqb (fst a) (fst b)) then Ok (Z.ltb (fst a) (fst b))
  else if Py.eq (snd a) (snd b) then Ok false
  else Py.lt (snd a) (snd b).

(** [sorted(rules, key=...)] is a stable sort that asks only [<] of the
    keys.  It is embedded as a stable insertion sort that compares the way
    CPython's does: each rule in turn is tested by [new < placed] against
    the rules already placed and goes before the first one that is
    greater.  Every stable sort returns the same list when the keys
    compare without error. *)
Fixpoint insert (r : Rule) (placed : list Rule) : result (list Rule) :=
  match placed with
  | [] => Ok [r]
  | x :: rest =>
      b <- sort_key_lt (sort_key r) (sort_key x) ;;
      if b then Ok (r :: x :: rest)
      else rest' <- insert r rest ;; Ok (x :: rest')
  end.

Fixpoint sort_into (placed : list Rule) (rules : list Rule) : result (list Rule) :=
  match rules with
  | [] => Ok placed
  | r :: rules' => placed' <- insert r placed ;; sort_into placed' rules'
  end.

Definition sorted (rules : list Rule) : result (list Rule) := sort_into [] rules.

(** The [for rule in ordered] loop; [trace] and [matched] are the two
    lists it appends to. *)
Fixpoint run (tx : value) (ordered : list Rule)
    (trace : list (value * bool)) (matched : list Rule)
    : result (list (value * bool) * list Rule) :=
  match ordered with
  | [] => Ok (trace, matched)
  | rule :: rest =>
      res <- Node_eval (root rule) tx ;;
      run tx rest (trace ++ [(name rule, res)])
          (if res then matched ++ [rule] else matched)
  end.

(** The key [(self.action_rank[r.action], r.priority)] of [max] and [>]
    on two such tuples. *)
Definition max_key (r : Rule) : result (Z * Z) :=
  rank <- action_rank (action r) ;; Ok (rank, priority r).

Definition max_key_gt (a b : Z * Z) : bool :=
  if negb (Z.eqb (fst a) (fst b)) then Z.gtb (fst a) (fst b)
  else Z.gtb (snd a) (snd b).

(** [max(matched, key=...)]: the key of every item is computed, and an
    item replaces the current maximum only when its key is strictly
    greater, so the first of several maxima is returned. *)
Fixpoint max_from (best : Rule) (best_key : Z * Z) (items : list Rule) : result Rule :=
  match items with
  | [] => Ok best
  | r :: items' =>
      k <- max_key r ;;
      if max_key_gt k best_key then max_from r k items'
      else max_from best best_key items'
  end.

Definition py_max (items : list Rule) : result Rule :=
  match items with
  | [] => Err ValueError
  | r :: items' => k <- max_key r ;; max_from r k items'
  end.

(** The dict [evaluate] returns; [rule] is [VNone] for Python's [None]. *)
Record Outcome : Type := {
  decision : value;
  rule : value;
  matched_rules : list value;
  trace : list (value * bool)
}.

(** [PolicyEngine.evaluate]. *)
Definition evaluate (rules : list Rule) (tx : value) : result Outcome :=
  ordered <- sorted rules ;;
  tm <- run tx ordered [] [] ;;
  let (trace, matched) := (tm : list (value * bool) * list Rule) in
  match matched with
  | [] =>
      Ok {| decision := VStr "allow"; rule := VNone;
            matched_rules := map name matched; trace := trace |}
  | _ :: _ =>
      chosen <- py_max matched ;;
      Ok {| decision := action chosen; rule := name chosen;
            matched_rules := map name matched; trace := trace |}
  end.

End PolicyEngine.

(** ** The rule set and the transactions of the repository *)

Module Demo.

Definition cond (f op : string) (v : value) : value :=
  VDict [("field", VStr f); ("op", VStr op); ("value", v)].

Definition rule_spec (n : string) (w : value) (a : string) (p : Z) : value :=
  VDict [("name", VStr n); ("when", w); ("action", VStr a); ("priority", VInt p)].

(** [DEFAULT_RULES] as [yaml.safe_load] returns it. *)
Definition DEFAULT_RULES : value :=
  VList [
    rule_spec "block_unhosted_wallets" (cond "originator.kyc" "eq" (VBool false)) "block" 20;
    rule_spec "flag_high_value_eur"
      (VDict [("all", VList [cond "amount" "gt" (VInt 100000);
                             cond "currency" "eq" (VStr "EUR")])]) "flag" 10;
    rule_spec "default_allow" (VDict []) "allow" 0
  ].

Definition tx (kyc : bool) (amount : Z) : value :=
  VDict [("originator", VDict [("kyc", VBool kyc)]);
         ("amount", VInt amount);
         ("currency", VStr "EUR")].

(** A stand-in for [int] on strings where a closed term is needed; no
    priority of the rule sets used here is a str. *)
Definition no_int : string -> option Z := fun _ => None.

Definition rules : list Rule :=
  match load_rules_from_yaml no_int DEFAULT_RULES with
  | Ok rs => rs
  | Err _ => []
  end.

(** A rule set whose only condition uses an operator outside the four,
    and one whose only rule has an action outside the three. *)
Definition odd_operator : value :=
  VList [rule_spec "odd_operator" (cond "amount" "gte" (VInt 100)) "flag" 5].

Definition odd_action : value :=
  VList [rule_spec "odd_action" (cond "amount" "gt" (VInt 100)) "deny" 5].

(** Two rules that both match every transaction with a positive amount:
    a flag of high priority and a block of low priority. *)
Definition loud_flag : Rule :=
  {| name := VStr "loud_flag";
     root := Condition (VStr "amount") (VStr "gt") (VInt 0);
     action := VStr "flag";
     priority := 99 |}.

Definition quiet_block : Rule :=
  {| name := VStr "quiet_block";
     root := Condition (VStr "amount") (VStr "gt") (VInt 0);
     action := VStr "block";
     priority := 1 |}.

End Demo.

(** ** Definitions used by the statements *)

(** Dotted-path resolution in the specification's words: walk the mapping
    one segment at a time; when the current value is not a mapping or the
    segment is absent the path is missing ([None]), otherwise it resolves
    to a present value. *)
Fixpoint resolve (parts : list string) (current : value) : option value :=
  match parts with
  | [] => Some current
  | part :: rest =>
      match current with
      | VDict d =>
          match Py.lookup part d with
          | Some next => resolve rest next
          | None => None
          end
      | _ => None
      end
  end.

(** The operators [Condition.eval] dispatches on. *)
Definition known_op (op : value) : bool :=
  op_is op "gt" || op_is op "lt" || op_is op "eq" || op_is op "in".

(** The node compiled for a missing or empty [when]. *)
Definition always_node : Node :=
  Condition (VStr "__always__") (VStr "eq") (VBool true).

(** ** Well-formed specifications *)

(** The shape [build_node] accepts: a mapping with [field], [op] and
    [value] and neither [all] nor [any], or a mapping whose [all] (or
    [any], when there is no [all]) is a sequence of such specifications.
    Nothing is asked of the operator. *)
Inductive well_formed_when : value -> Prop :=
  | wf_condition (d : list (string * value)) :
      Py.has_key "all" d = false ->
      Py.has_key "any" d = false ->
      Py.has_key "field" d = true ->
      Py.has_key "op" d = true ->
      Py.has_key "value" d = true ->
      well_formed_when (VDict d)
  | wf_composite (d : list (string * value)) (cs : list value) :
      Py.lookup (if Py.has_key "all" d then "all" else "any") d = Some (VList cs) ->
      Forall well_formed_when cs ->
      well_formed_when (VDict d).

(** A rule specification [load_rules_from_yaml] accepts: a mapping with
    [name] and [action], whose [when] is absent, empty or well formed and
    whose [priority] is absent or something [int] converts.  Nothing is
    asked of the action. *)
Definition well_formed_rule (int_of_str : string -> option Z) (r : value) : Prop :=
  exists d,
    r = VDict d /\
    Py.has_key "name" d = true /\
    Py.has_key "action" d = true /\
    match Py.lookup "when" d with
    | Some w => Py.truthy w = false \/ well_formed_when w
    | None => True
    end /\
    match Py.lookup "priority" d with
    | Some p => exists n, py_int int_of_str p = Ok n
    | None => True
    end.

(** The actions of the data model, the keys of [action_rank]. *)
Definition is_decision (a : value) : bool :=
  Py.eq a (VStr "allow") || Py.eq a (VStr "block") || Py.eq a (VStr "flag").

(** ** Rule sets of the data model *)

(** A rule has the types its dataclass declares when its name is a str and
    its action one of the three decisions. *)
Definition str_named (r : Rule) : Prop := exists s, name r = VStr s.

Definition typed (r : Rule) : Prop :=
  str_named r /\ is_decision (action r) = true.

Definition name_str (r : Rule) : string :=
  match name r with
  | VStr s => s
  | _ => ""
  end.

(** The order (descending priority, ascending name), as [<=] and as [<]. *)
Definition rule_le (a b : Rule) : Prop :=
  priority b < priority a \/
  (priority a = priority b /\ String.leb (name_str a) (name_str b) = true).

Definition comes_before (a b : Rule) : Prop :=
  priority b < priority a \/
  (priority a = priority b /\ String.ltb (name_str a) (name_str b) = true).

(** The severity rank of the specification: block 2, flag 1, allow 0. *)
Definition severity (a : value) : Z :=
  if Py.eq a (VStr "block") then 2
  else if Py.eq a (VStr "flag") then 1
  else 0.

(** The pair (severity rank, priority) and its lexicographic order. *)
Definition weight (r : Rule) : Z * Z := (severity (action r), priority r).

Definition lex_lt (a b : Z * Z) : Prop :=
  fst a < fst b \/ (fst a = fst b /\ snd a < snd b).

Definition lex_le (a b : Z * Z) : Prop := lex_lt a b \/ a = b.

(** A rule matches when its root evaluates to true. *)
Definition matches (tx : value) (r : Rule) : bool :=
  match Node_eval (root r) tx with
  | Ok true => true
  | _ => false
  end.

(** No condition of the rule set raises on the transaction. *)
Definition no_error (rules : list Rule) (tx : value) : Prop :=
  forall r, In r rules -> exists b, Node_eval (root r) tx = Ok b.

(** [w] is the winning rule the specification describes: a matched rule of
    the set, maximal for (severity rank, priority) among the matched
    rules, and before every other matched rule of the same weight in the
    (priority descending, name ascending) order. *)
Definition winner (rules : list Rule) (tx : value) (w : Rule) : Prop :=
  In w rules /\ matches tx w = true /\
  forall r, In r rules -> matches tx r = true ->
    lex_le (weight r) (weight w) /\
    (weight r = weight w -> r <> w -> comes_before w r).

(** ** The loader of [app.py] *)

Section AppLoader.

Variable int_of_str : string -> option Z.

(** The loop body of [load_rules_from_yaml] as [app.py] writes it:
    [when_spec = r.get("when") or {}], then the default when that is
    empty; the root is built before [Rule(...)] is called. *)
Definition load_rule_app (r : value) : result Rule :=
  w <- Py.get r "when" VNone ;;
  let when_spec := if Py.truthy w then w else VDict [] in
  let when_spec := if negb (Py.truthy when_spec) then always_spec else when_spec in
  root <- build_node when_spec ;;
  name <- Py.getitem r "name" ;;
  action <- Py.getitem r "action" ;;
  p <- Py.get r "priority" (VInt 0) ;;
  priority <- py_int int_of_str p ;;
  Ok {| name := name; root := root; action := action; priority := priority |}.

Definition load_rules_from_yaml_app (raw : value) : result (list Rule) :=
  items <- Py.iter raw ;;
  mapM load_rule_app items.

End AppLoader.

(** ** The enforcement endpoint *)

Module Server.

(** [TransactionRequest], the body of a request once pydantic accepted
    it; [amount] is a float. *)
Record TransactionRequest : Type := {
  id : string;
  originator : list (string * value);
  beneficiary : list (string * value);
  amount : Q;
  currency : string;
  context : option string
}.

(** [tx.dict()]: the fields in the order the model declares them. *)
Definition dict (tx : TransactionRequest) : value :=
  VDict [("id", VStr (id tx));
         ("originator", VDict (originator tx));
         ("beneficiary", VDict (beneficiary tx));
         ("amount", VFloat (amount tx));
         ("currency", VStr (currency tx));
         ("context", match context tx with
                     | Some c => VStr c
                     | None => VNone
                     end)].

(** [s.upper()] on the ASCII letters; the other bytes are kept (Python
    also maps letters outside ASCII). *)
Definition upper_ascii (c : ascii) : ascii :=
  let n := nat_of_ascii c in
  if (Nat.leb 97 n && Nat.leb n 122)%bool then ascii_of_nat (n - 32) else c.

Fixpoint upper (s : string) : string :=
  match s with
  | EmptyString => EmptyString
  | String c s' => String (upper_ascii c) (upper s')
  end.

(** [v.upper()]: only a str has the method. *)
Definition py_upper (v : value) : result string :=
  match v with
  | VStr s => Ok (upper s)
  | _ => Err AttributeError
  end.

(** The global [STATS]. *)
Record Stats : Type := {
  total_processed : Z;
  decisions : list (string * Z)
}.

Definition STATS : Stats :=
  {| total_processed := 0;
     decisions := [("BLOCK", 0); ("FLAG", 0); ("ALLOW", 0)] |}.

(** [counters[key] += 1]: the key must be there. *)
Fixpoint bump (key : string) (counters : list (string * Z)) : result (list (string * Z)) :=
  match counters with
  | [] => Err KeyError
  | (k, n) :: rest =>
      if String.eqb k key then Ok ((k, n + 1) :: rest)
      else rest' <- bump key rest ;; Ok ((k, n) :: rest')
  end.

(** [counters[key]] read back, 0 when the key is not there. *)
Fixpoint count (key : string) (counters : list (string * Z)) : Z :=
  match counters with
  | [] => 0
  | (k, n) :: rest => if String.eqb k key then n else count key rest
  end.

(** The reply of [enforce_policy]: the dict it returns, or HTTP 500. *)
Inductive Reply : Type :=
  | Enforced (decision : string) (rule_applied : value) (trace_id : string)
  | Http500 (e : error).

(** The handler [enforce_policy] of [main.py], up to its [return] or
    [raise]: the globals [engine] and [STATS] are the state.  Every
    exception of the [try] block becomes HTTP 500; [total_processed] is
    incremented before the counter of the decision is looked up.  What
    FastAPI does with the returned dict is [enforce_endpoint] below. *)
Definition enforce_policy (engine : list Rule) (stats : Stats) (tx : TransactionRequest)
    : Stats * Reply :=
  let tx_data := dict tx in
  match PolicyEngine.evaluate engine tx_data with
  | Err e => (stats, Http500 e)
  | Ok result =>
      match py_upper (PolicyEngine.decision result) with
      | Err e => (stats, Http500 e)
      | Ok decision_key =>
          let stats1 := {| total_processed := total_processed stats + 1;
                           decisions := decisions stats |} in
          match bump decision_key (decisions stats1) with
          | Err e => (stats1, Http500 e)
          | Ok counters =>
              ({| total_processed := total_processed stats1;
                  decisions := counters |},
               Enforced decision_key (PolicyEngine.rule result)
                        ("trace_" ++ id tx ++ "_secure"))
          end
      end
  end.

(** [STATS] is consistent when the three counters exist and add up to
    [total_processed]. *)
Definition consistent (stats : Stats) : Prop :=
  In "BLOCK" (map fst (decisions stats)) /\
  In "FLAG" (map fst (decisions stats)) /\
  In "ALLOW" (map fst (decisions stats)) /\
  total_processed stats =
  count "BLOCK" (decisions stats) + count "FLAG" (decisions stats)
  + count "ALLOW" (decisions stats).

(** What the client of [/enforce] receives: a [PolicyResponse], whose
    [timestamp] has a default, or HTTP 500, from the handler ([Some e]) or
    from the validation of the reply ([None]). *)
Inductive Response : Type :=
  | Response200 (decision : string) (rule_applied : option string)
                (timestamp trace_id : string)
  | Response500 (cause : option error).

Section Endpoint.

(** The validation of a value that is neither [None] nor a str as
    [Optional[str]]: [Some s] when pydantic turns it into the str [s],
    [None] when it rejects it.  Which values it accepts depends on the
    version of pydantic, so it is left open. *)
Variable str_of_other : value -> option string.

(** [rule_applied: Optional[str]] of [PolicyResponse]. *)
Definition validate_rule_applied (v : value) : option (option string) :=
  match v with
  | VNone => Some None
  | VStr s => Some (Some s)
  | _ =>
      match str_of_other v with
      | Some s => Some (Some s)
      | None => None
      end
  end.

(** The endpoint: the handler, then FastAPI validates what it returned
    against [response_model=PolicyResponse]; [decision] and [trace_id] are
    strs already.  A reply that does not validate is answered by HTTP 500,
    after [STATS] was updated. *)
Definition enforce_endpoint (engine : list Rule) (stats : Stats) (tx : TransactionRequest)
    : Stats * Response :=
  match enforce_policy engine stats tx with
  | (stats', Http500 e) => (stats', Response500 (Some e))
  | (stats', Enforced decision rule_applied trace_id) =>
      match validate_rule_applied rule_applied with
      | Some r => (stats', Response200 decision r "2025-10-27T10:00:00Z" trace_id)
      | None => (stats', Response500 None)
      end
  end.

End Endpoint.

End Server.

(** ** More definitions used by the statements *)

(** The specifications [build_node] accepts, all of them: besides a
    sequence, the children of a composite may be an empty mapping or an
    empty string, which have no items. *)
Inductive accepted : value -> Prop :=
  | accepted_condition (d : list (string * value)) :
      Py.has_key "all" d = false ->
      Py.has_key "any" d = false ->
      Py.has_key "field" d = true ->
      Py.has_key "op" d = true ->
      Py.has_key "value" d = true ->
      accepted (VDict d)
  | accepted_composite (d : list (string * value)) (cs : list value) :
      Py.lookup (if Py.has_key "all" d then "all" else "any") d = Some (VList cs) ->
      Forall accepted cs ->
      accepted (VDict d)
  | accepted_no_items (d : list (string * value)) (sub : value) :
      Py.lookup (if Py.has_key "all" d then "all" else "any") d = Some sub ->
      sub = VDict [] \/ sub = VStr "" ->
      accepted (VDict d).

(** The outcome of a child, for [all] and [any]. *)
Definition holds (tx : value) (n : Node) : bool :=
  match Node_eval n tx with
  | Ok true => true
  | _ => false
  end.

(** What [evaluate] decides, without the trace. *)
Definition verdict (o : result PolicyEngine.Outcome) : result (value * value * list value) :=
  out <- o ;;
  Ok (PolicyEngine.decision out, PolicyEngine.rule out, PolicyEngine.matched_rules out).

(** ** Sample inputs for the further properties *)

Module Sample.

(** The outcome of [Demo.rules] on an unhosted wallet. *)
Definition blocked : PolicyEngine.Outcome :=
  {| PolicyEngine.decision := VStr "block";
     PolicyEngine.rule := VStr "block_unhosted_wallets";
     PolicyEngine.matched_rules := [VStr "block_unhosted_wallets"];
     PolicyEngine.trace := [(VStr "block_unhosted_wallets", true);
                            (VStr "flag_high_value_eur", false);
                            (VStr "default_allow", false)] |}.

(** A request as the load test sends it. *)
Definition request (kyc : bool) (amount : Z) : Server.TransactionRequest :=
  {| Server.id := "tx_1";
     Server.originator := [("kyc", VBool kyc); ("id", VStr "bank_gen")];
     Server.beneficiary := [];
     Server.amount := inject_Z amount;
     Server.currency := "EUR";
     Server.context := Some "Standard" |}.

(** A rule whose condition compares the amount with a string. *)
Definition broken : Rule :=
  {| name := VStr "broken";
     root := Condition (VStr "amount") (VStr "gt") (VStr "high");
     action := VStr "flag";
     priority := 3 |}.

(** A rule that always matches a positive amount and is named by a
    number, as [name: 5] in YAML gives. *)
Definition numbered : Rule :=
  {| name := VInt 5;
     root := Condition (VStr "amount") (VStr "gt") (VInt 0);
     action := VStr "flag";
     priority := 3 |}.

End Sample.

(** [v] is a bool, an int or a finite float, and [a] is its value.  The
    floats of [value] are the finite ones: NaN, which compares false with
    everything, is not among them. *)
Definition finite_number (v : value) (a : Q) : Prop := Py.num v = Some a.

(** * Properties *)

(** ** Field resolution *)

(** [_get_nested] returns [None] for a missing path and the value itself
    for a present one. *)
Lemma walk_resolve (parts : list string) (current : value) :
  walk parts current =
  match resolve parts current with
  | Some v => v
  | None => VNone
  end.
Proof.
  revert current.
  induction parts as [| part rest IH]; intros current; simpl.
  - reflexivity.
  - destruct current; try reflexivity.
    destruct (Py.lookup part d); [apply IH | reflexivity].
Qed.

Lemma get_nested_missing (path : string) (tx : value) :
  resolve (Py.split_dots path) tx = None ->
  _get_nested (VStr path) tx = Ok VNone.
Proof.
  intros H. unfold _get_nested. now rewrite walk_resolve, H.
Qed.

Lemma get_nested_present (path : string) (tx v : value) :
  resolve (Py.split_dots path) tx = Some v ->
  _get_nested (VStr path) tx = Ok v.
Proof.
  intros H. unfold _get_nested. now rewrite walk_resolve, H.
Qed.

Lemma Condition_eval_missing (path : string) (op val tx : value) :
  resolve (Py.split_dots path) tx = None ->
  Condition_eval (VStr path) op val tx = Ok false.
Proof.
  intros H. unfold Condition_eval. now rewrite (get_nested_missing _ _ H).
Qed.

Lemma Condition_eval_None (field op val tx : value) :
  _get_nested field tx = Ok VNone ->
  Condition_eval field op val tx = Ok false.
Proof.
  intros H. unfold Condition_eval. now rewrite H.
Qed.

Lemma Condition_eval_unknown (field op val tx v : value) :
  _get_nested field tx = Ok v ->
  v <> VNone ->
  known_op op = false ->
  Condition_eval field op val tx = Err (UnknownOperator op).
Proof.
  intros Hv Hnone Hop. unfold Condition_eval. rewrite Hv. simpl.
  unfold known_op in Hop.
  repeat (apply orb_false_iff in Hop; destruct Hop as [Hop ?]).
  destruct v; try congruence;
    repeat match goal with H : op_is _ _ = false |- _ => rewrite H; clear H end;
    reflexivity.
Qed.

(** C8: a Condition whose dotted field path fails to resolve on the
    transaction (some step meets a value that is not a mapping, or a
    segment that is absent) evaluates to false, without raising, whatever
    its operator and operand. *)
Theorem missing_field_is_false (path : string) (op val tx : value) :
  resolve (Py.split_dots path) tx = None ->
  Condition_eval (VStr path) op val tx = Ok false.
Proof.
  intros H. apply Condition_eval_None. now apply get_nested_missing.
Qed.

(** The instance of the specification: [originator.kyc] against a
    transaction without [originator]. *)
Lemma missing_field_is_false_witness :
  resolve (Py.split_dots "originator.kyc")
          (VDict [("amount", VInt 5000); ("currency", VStr "EUR")]) = None /\
  Condition_eval (VStr "originator.kyc") (VStr "eq") (VBool false)
                 (VDict [("amount", VInt 5000); ("currency", VStr "EUR")]) = Ok false.
Proof.
  split; [reflexivity | apply missing_field_is_false; reflexivity].
Defined.

(** The same for every transaction lacking the key, and every operator. *)
Lemma originator_kyc_without_originator (d : list (string * value)) (op val : value) :
  Py.lookup "originator" d = None ->
  Condition_eval (VStr "originator.kyc") op val (VDict d) = Ok false.
Proof.
  intros H. apply Condition_eval_None, get_nested_missing. simpl. now rewrite H.
Qed.

(** C10: a path that resolves to a present [None] is treated as a missing
    one: [_get_nested] returns [None] in both cases and the Condition
    evaluates to false for every operator and operand, so [eq None] does
    not match it and an unknown operator raises nothing. *)
Theorem present_null_is_false (path : string) (tx : value) :
  resolve (Py.split_dots path) tx = Some VNone \/
  resolve (Py.split_dots path) tx = None ->
  _get_nested (VStr path) tx = Ok VNone /\
  forall op val, Condition_eval (VStr path) op val tx = Ok false.
Proof.
  intros H.
  assert (Hget : _get_nested (VStr path) tx = Ok VNone).
  { destruct H as [H | H];
      [now apply get_nested_present | now apply get_nested_missing]. }
  split; [exact Hget | intros op val; now apply Condition_eval_None].
Qed.

Lemma present_null_is_false_witness :
  resolve (Py.split_dots "originator.kyc")
          (VDict [("originator", VDict [("kyc", VNone)])]) = Some VNone /\
  Condition_eval (VStr "originator.kyc") (VStr "eq") VNone
                 (VDict [("originator", VDict [("kyc", VNone)])]) = Ok false /\
  Condition_eval (VStr "originator.kyc") (VStr "matches") VNone
                 (VDict [("originator", VDict [("kyc", VNone)])]) = Ok false.
Proof.
  split; [reflexivity |].
  split; apply (present_null_is_false "originator.kyc"); left; reflexivity.
Defined.

(** C9: [all] over no children is true and [any] over no children is
    false, on every transaction. *)
Theorem empty_composite (tx : value) :
  Node_eval (CompositeCondition "all" []) tx = Ok true /\
  Node_eval (CompositeCondition "any" []) tx = Ok false.
Proof.
  split; reflexivity.
Qed.

(** How a composite consumes its first child. *)
Lemma all_cons (c : Node) (cs : list Node) (tx : value) :
  Node_eval (CompositeCondition "all" (c :: cs)) tx =
  (b <- Node_eval c tx ;;
   if b then Node_eval (CompositeCondition "all" cs) tx else Ok false).
Proof. reflexivity. Qed.

Lemma any_cons (c : Node) (cs : list Node) (tx : value) :
  Node_eval (CompositeCondition "any" (c :: cs)) tx =
  (b <- Node_eval c tx ;;
   if b then Ok true else Node_eval (CompositeCondition "any" cs) tx).
Proof. reflexivity. Qed.

(** C5, as the specification states it, fails: with an operator outside
    the four, a Condition on a field the transaction lacks evaluates to
    false and raises nothing. *)
Lemma unknown_operator_silent_false :
  known_op (VStr "gte") = false /\
  Condition_eval (VStr "amount") (VStr "gte") (VInt 100)
                 (VDict [("currency", VStr "EUR")]) = Ok false.
Proof.
  split; reflexivity.
Qed.

(** C5, amended: an operator outside gt, lt, eq, in raises UnknownOperator
    exactly when the field resolves to a value other than [None]; on a
    missing or null field the test for [None] comes first and the
    Condition is false. *)
Theorem unknown_operator_raises_when_present
    (path : string) (op val tx : value) :
  known_op op = false ->
  Condition_eval (VStr path) op val tx =
  match resolve (Py.split_dots path) tx with
  | None | Some VNone => Ok false
  | Some _ => Err (UnknownOperator op)
  end.
Proof.
  intros Hop.
  destruct (resolve (Py.split_dots path) tx) as [v |] eqn:Hres.
  - pose proof (get_nested_present _ _ Hres) as Hget.
    destruct v;
      try (eapply Condition_eval_unknown;
           [exact Hget | discriminate | exact Hop]).
    now apply Condition_eval_None.
  - now apply Condition_eval_missing.
Qed.

(** ** The rule compiler *)

Lemma build_node_str (s : string) : build_node (VStr s) = Err TypeError.
Proof. reflexivity. Qed.

(** The children loop of [build_node] on a list is the comprehension. *)
Lemma build_children_list (cs : list value) :
  (fix each (cs : list value) : result (list Node) :=
     match cs with
     | [] => Ok []
     | c :: cs' => n <- build_node c ;; ns <- each cs' ;; Ok (n :: ns)
     end) cs = mapM build_node cs.
Proof.
  induction cs as [| c cs IH]; simpl; [reflexivity | now rewrite IH].
Qed.

(** [build_node] on a dict, with the subscript and the iteration spelled
    as the builtin operations. *)
Lemma build_node_dict (d : list (string * value)) :
  build_node (VDict d) =
  if Py.has_key "all" d || Py.has_key "any" d then
    let mode := if Py.has_key "all" d then "all" else "any" in
    sub <- Py.item d mode ;;
    items <- Py.iter sub ;;
    children <- mapM build_node items ;;
    Ok (CompositeCondition mode children)
  else
    field <- Py.item d "field" ;;
    op <- Py.item d "op" ;;
    val <- Py.item d "value" ;;
    Ok (Condition field op val).
Proof.
  cbn [build_node].
  destruct (Py.has_key "all" d || Py.has_key "any" d); [| reflexivity].
  cbv zeta. set (mode := if Py.has_key "all" d then "all" else "any").
  unfold Py.item.
  match goal with
  | |- bind (?f d) _ = _ =>
      assert (Hsub : forall e,
                 f e = match Py.lookup mode e with
                       | Some sub => items <- Py.iter sub ;; mapM build_node items
                       | None => Err KeyError
                       end)
  end.
  { induction e as [| [k v] e IH]; [reflexivity |].
    cbn [Py.lookup]. destruct (String.eqb k mode); [| exact IH].
    destruct v as [| | | | s | cs | kvs]; try reflexivity.
    - destruct s; reflexivity.
    - cbn [Py.iter bind]. apply build_children_list.
    - destruct kvs as [| [k' v'] kvs]; reflexivity. }
  rewrite Hsub. destruct (Py.lookup mode d) as [sub |]; [| reflexivity].
  cbn [bind]. destruct (Py.iter sub); [| reflexivity].
  cbn [bind]. destruct (mapM build_node a); reflexivity.
Qed.

(** The equation of the source: [build_node] is the function of
    [main.py], line by line, on every value. *)
Lemma build_node_unfold (spec : value) :
  build_node spec =
  (has_all <- Py.contains spec (VStr "all") ;;
   has_any <- (if has_all then Ok true else Py.contains spec (VStr "any")) ;;
   if has_any then
     let mode := if has_all then "all" else "any" in
     sub <- Py.getitem spec mode ;;
     items <- Py.iter sub ;;
     children <- mapM build_node items ;;
     Ok (CompositeCondition mode children)
   else
     field <- Py.getitem spec "field" ;;
     op <- Py.getitem spec "op" ;;
     val <- Py.getitem spec "value" ;;
     Ok (Condition field op val)).
Proof.
  destruct spec as [| | | | s | l | d]; try reflexivity.
  - cbn [Py.contains bind Py.getitem build_node].
    destruct (Py.is_substr "all" s); cbn [bind];
      [| destruct (Py.is_substr "any" s)]; reflexivity.
  - cbn [Py.contains bind Py.getitem build_node].
    destruct (existsb (Py.eq (VStr "all")) l); cbn [bind];
      [| destruct (existsb (Py.eq (VStr "any")) l)]; reflexivity.
  - rewrite build_node_dict. cbn [Py.contains bind Py.getitem].
    destruct (Py.has_key "all" d); cbn [bind orb]; [reflexivity |].
    destruct (Py.has_key "any" d); reflexivity.
Qed.

Lemma build_always : build_node always_spec = Ok always_node.
Proof. reflexivity. Qed.

(** What that node computes: it looks the key [__always__] up in the
    transaction. *)
Lemma always_node_eval (tx : value) :
  Node_eval always_node tx =
  Ok match resolve ["__always__"] tx with
     | Some v => Py.eq v (VBool true)
     | None => false
     end.
Proof.
  cbn [Node_eval always_node]. unfold Condition_eval, _get_nested.
  change (Py.split_dots "__always__") with ["__always__"].
  rewrite walk_resolve.
  destruct (resolve ["__always__"] tx) as [v |]; [| reflexivity].
  destruct v; reflexivity.
Qed.

(** ** Loading rule sets *)

Lemma mapM_total {A B : Type} (f : A -> result B) (l : list A) :
  Forall (fun x => exists y, f x = Ok y) l ->
  exists ys, mapM f l = Ok ys /\ List.length ys = List.length l.
Proof.
  induction 1 as [| x l [y Hy] _ [ys [Hys Hlen]]]; simpl.
  - now exists [].
  - rewrite Hy, Hys. simpl. exists (y :: ys). now rewrite <- Hlen.
Qed.

Lemma mapM_Forall2 {A B : Type} (f : A -> result B) (l : list A) (ys : list B) :
  mapM f l = Ok ys -> Forall2 (fun x y => f x = Ok y) l ys.
Proof.
  revert ys. induction l as [| x l IH]; simpl; intros ys H.
  - injection H as <-. constructor.
  - destruct (f x) as [y |] eqn:Hy; [| discriminate]. simpl in H.
    destruct (mapM f l) as [ys' |]; [| discriminate]. simpl in H.
    injection H as <-. constructor; auto.
Qed.

Lemma has_key_lookup (k : string) (d : list (string * value)) :
  Py.has_key k d = true -> exists v, Py.lookup k d = Some v.
Proof.
  unfold Py.has_key. destruct (Py.lookup k d) as [v |]; [eauto | discriminate].
Qed.

(** A well-formed [when] compiles, whatever its operators are. *)
Lemma build_node_total : forall spec : value,
  well_formed_when spec -> exists n, build_node spec = Ok n.
Proof.
  fix IH 2. intros spec [d Hall Hany Hf Ho Hv | d cs Hsub Hcs].
  - rewrite build_node_dict, Hall, Hany. simpl.
    destruct (has_key_lookup _ _ Hf) as [f Ef].
    destruct (has_key_lookup _ _ Ho) as [o Eo].
    destruct (has_key_lookup _ _ Hv) as [v Ev].
    unfold Py.item. rewrite Ef, Eo, Ev. simpl. eauto.
  - assert (Hch : exists ns, mapM build_node cs = Ok ns).
    { clear Hsub. revert cs Hcs. fix IHcs 2. intros cs [| c cs' Hc Hcs'].
      - now exists [].
      - destruct (IH c Hc) as [n Hn]. destruct (IHcs cs' Hcs') as [ns Hns].
        simpl. rewrite Hn, Hns. simpl. eauto. }
    destruct Hch as [ns Hns].
    rewrite build_node_dict.
    assert (Hkey : Py.has_key "all" d || Py.has_key "any" d = true).
    { destruct (Py.has_key "all" d) eqn:E; [reflexivity |].
      simpl. unfold Py.has_key. now rewrite Hsub. }
    rewrite Hkey. cbv zeta. unfold Py.item. rewrite Hsub. simpl.
    rewrite Hns. simpl. eauto.
Qed.

Section LoaderFacts.

Variable int_of_str : string -> option Z.

Lemma load_rule_total (r : value) :
  well_formed_rule int_of_str r -> exists rule, load_rule int_of_str r = Ok rule.
Proof.
  intros [d [-> [Hn [Ha [Hw Hp]]]]].
  destruct (has_key_lookup _ _ Hn) as [n En].
  destruct (has_key_lookup _ _ Ha) as [a Ea].
  unfold load_rule, Py.get, Py.getitem, Py.item. rewrite En, Ea. simpl.
  assert (Hroot : exists root,
             build_node (if Py.truthy match Py.lookup "when" d with
                                      | Some x => x
                                      | None => VNone
                                      end
                         then match Py.lookup "when" d with
                              | Some x => x
                              | None => VNone
                              end
                         else always_spec) = Ok root).
  { destruct (Py.lookup "when" d) as [w |]; simpl.
    - destruct Hw as [Hw | Hw].
      + rewrite Hw. now exists always_node.
      + destruct (Py.truthy w); [now apply build_node_total |].
        now exists always_node.
    - now exists always_node. }
  destruct Hroot as [root ->]. simpl.
  destruct (Py.lookup "priority" d) as [p |].
  - destruct Hp as [z ->]. simpl. eauto.
  - simpl. eauto.
Qed.

(** What a compiled rule carries: the specification's name and action as
    they are, and the root compiled from [when] or from the default. *)
Lemma load_rule_fields (r : value) (rule : Rule) :
  load_rule int_of_str r = Ok rule ->
  Py.getitem r "name" = Ok (name rule) /\
  Py.getitem r "action" = Ok (action rule) /\
  exists w, Py.get r "when" VNone = Ok w /\
            build_node (if Py.truthy w then w else always_spec) = Ok (root rule).
Proof.
  unfold load_rule. intros H.
  destruct (Py.get r "when" VNone) as [w |]; [| discriminate]. simpl in H.
  destruct (Py.getitem r "name") as [n |]; [| discriminate]. simpl in H.
  destruct (build_node _) as [nd |] eqn:Hnd; [| discriminate]. simpl in H.
  destruct (Py.getitem r "action") as [a |]; [| discriminate]. simpl in H.
  destruct (Py.get r "priority" (VInt 0)) as [p |]; [| discriminate]. simpl in H.
  destruct (py_int int_of_str p) as [z |]; [| discriminate]. simpl in H.
  injection H as <-. simpl. repeat split; try reflexivity.
  exists w. split; [reflexivity | exact Hnd].
Qed.

Lemma load_rule_default_root (r w : value) (rule : Rule) :
  Py.get r "when" VNone = Ok w ->
  Py.truthy w = false ->
  load_rule int_of_str r = Ok rule ->
  root rule = always_node.
Proof.
  intros Hw Hempty Hload.
  destruct (load_rule_fields _ Hload) as [_ [_ [w' [Hw' Hroot]]]].
  rewrite Hw in Hw'. injection Hw' as <-.
  rewrite Hempty, build_always in Hroot. now injection Hroot.
Qed.

Lemma update_policy_spec (raw : value) (engine : list Rule) :
  match load_rules_from_yaml int_of_str raw with
  | Ok rules =>
      update_policy int_of_str raw engine = (rules, PolicyUpdated (List.length rules))
  | Err e => update_policy int_of_str raw engine = (engine, Http400 e)
  end.
Proof.
  unfold update_policy. now destruct (load_rules_from_yaml int_of_str raw).
Qed.

End LoaderFacts.

(** ** The order on strings *)

Lemma compare_refl (a : string) : String.compare a a = Eq.
Proof. now apply String_as_OT.cmp_eq. Qed.

Lemma ltb_irrefl (a : string) : String.ltb a a = false.
Proof. unfold String.ltb. now rewrite compare_refl. Qed.

Lemma ltb_leb (a b : string) : String.ltb a b = true -> String.leb a b = true.
Proof.
  unfold String.ltb, String.leb. now destruct (String.compare a b).
Qed.

Lemma not_ltb_leb (a b : string) : String.ltb a b = false -> String.leb b a = true.
Proof.
  unfold String.ltb, String.leb. rewrite (String.compare_antisym a b).
  now destruct (String.compare b a).
Qed.

Lemma leb_neq_ltb (a b : string) :
  String.leb a b = true -> a <> b -> String.ltb a b = true.
Proof.
  unfold String.ltb, String.leb. intros H Hne.
  destruct (String.compare a b) eqn:E; try easy.
  now apply String_as_OT.cmp_eq in E.
Qed.

Lemma leb_trans (a b c : string) :
  String.leb a b = true -> String.leb b c = true -> String.leb a c = true.
Proof.
  unfold String.leb. intros Hab Hbc.
  destruct (String.compare a b) eqn:Eab; try discriminate;
    destruct (String.compare b c) eqn:Ebc; try discriminate.
  - apply String_as_OT.cmp_eq in Eab. subst. now rewrite Ebc.
  - apply String_as_OT.cmp_eq in Eab. subst. now rewrite Ebc.
  - apply String_as_OT.cmp_eq in Ebc. subst. now rewrite Eab.
  - apply String_as_OT.cmp_lt in Eab, Ebc.
    pose proof (String_as_OT.lt_trans _ _ _ Eab Ebc) as H.
    apply String_as_OT.cmp_lt in H. unfold String_as_OT.cmp in H. now rewrite H.
Qed.

(** ** Sorting the rules *)

Lemma rule_le_trans (a b c : Rule) : rule_le a b -> rule_le b c -> rule_le a c.
Proof.
  unfold rule_le. intros [Hab | [Hab Lab]] [Hbc | [Hbc Lbc]]; try (left; lia).
  right. split; [lia | eapply leb_trans; eauto].
Qed.

(** On rules named by strings the comparison of two sort keys never raises
    and decides [comes_before]. *)
Lemma sort_key_lt_str (a b : Rule) :
  str_named a -> str_named b ->
  exists c, PolicyEngine.sort_key_lt (PolicyEngine.sort_key a) (PolicyEngine.sort_key b) = Ok c /\
            (c = true -> comes_before a b) /\
            (c = false -> rule_le b a).
Proof.
  intros [sa Ha] [sb Hb].
  unfold PolicyEngine.sort_key_lt, PolicyEngine.sort_key, comes_before, rule_le, name_str.
  rewrite Ha, Hb. cbn [fst snd].
  destruct (Z.eqb_spec (- priority a) (- priority b)) as [Heq | Hne]; cbn [negb].
  - cbn [Py.eq Py.lt]. destruct (String.eqb_spec sa sb) as [-> | Hs].
    + exists false. repeat split; try discriminate.
      intros _. right. split; [lia |]. apply not_ltb_leb, ltb_irrefl.
    + exists (String.ltb sa sb). repeat split.
      * intros H. right. split; [lia | exact H].
      * intros H. right. split; [lia | now apply not_ltb_leb].
  - exists (Z.ltb (- priority a) (- priority b)). repeat split.
    + intros H. apply Z.ltb_lt in H. left. lia.
    + intros H. apply Z.ltb_ge in H. left. lia.
Qed.

Lemma comes_before_le (a b : Rule) : comes_before a b -> rule_le a b.
Proof.
  intros [H | [H L]]; [now left | right; split; [exact H | now apply ltb_leb]].
Qed.

Lemma insert_sorted (r : Rule) (placed : list Rule) :
  str_named r -> Forall str_named placed -> StronglySorted rule_le placed ->
  exists placed',
    PolicyEngine.insert r placed = Ok placed' /\
    Permutation (r :: placed) placed' /\
    StronglySorted rule_le placed'.
Proof.
  intros Hr Hnamed Hsorted.
  induction placed as [| x rest IH]; cbn [PolicyEngine.insert].
  - exists [r]. repeat split; [reflexivity | repeat constructor].
  - inversion Hnamed as [| ? ? Hx Hrest]; subst.
    inversion Hsorted as [| ? ? Hs Hall]; subst.
    destruct (sort_key_lt_str Hr Hx) as [c [-> [Ht Hf]]]. cbn [bind].
    destruct c.
    + exists (r :: x :: rest). repeat split; [reflexivity |].
      constructor; [exact Hsorted |].
      pose proof (comes_before_le (Ht eq_refl)) as Hrx.
      constructor; [exact Hrx |].
      eapply Forall_impl; [| exact Hall].
      intros y Hy. now apply rule_le_trans with x.
    + destruct (IH Hrest Hs) as [rest' [-> [Hperm Hs']]]. cbn [bind].
      exists (x :: rest'). repeat split.
      * rewrite perm_swap. now constructor.
      * constructor; [exact Hs' |].
        eapply Permutation_Forall; [exact Hperm |].
        constructor; [now apply Hf | exact Hall].
Qed.

Lemma sort_into_sorted (rules placed : list Rule) :
  Forall str_named rules -> Forall str_named placed ->
  StronglySorted rule_le placed ->
  exists ordered,
    PolicyEngine.sort_into placed rules = Ok ordered /\
    Permutation (placed ++ rules) ordered /\
    StronglySorted rule_le ordered.
Proof.
  revert placed.
  induction rules as [| r rules IH]; intros placed Hrules Hplaced Hsorted;
    cbn [PolicyEngine.sort_into].
  - exists placed. rewrite app_nil_r. now repeat split.
  - inversion Hrules as [| ? ? Hr Hrules']; subst.
    destruct (insert_sorted Hr Hplaced Hsorted) as [placed' [-> [Hperm Hs]]].
    cbn [bind].
    destruct (IH placed' Hrules') as [ordered [Hsort [Hperm' Hs']]].
    + eapply Permutation_Forall; [exact Hperm |]. now constructor.
    + exact Hs.
    + exists ordered. repeat split; try assumption.
      rewrite <- Hperm'. rewrite <- Hperm.
      now rewrite <- Permutation_middle.
Qed.

(** [sorted] returns the rules in (priority descending, name ascending)
    order. *)
Lemma sorted_spec (rules : list Rule) :
  Forall str_named rules ->
  exists ordered,
    PolicyEngine.sorted rules = Ok ordered /\
    Permutation rules ordered /\
    StronglySorted rule_le ordered.
Proof.
  intros H. apply (@sort_into_sorted rules []); [exact H | constructor | constructor].
Qed.

(** ** The evaluation loop *)

Lemma matches_result (tx : value) (r : Rule) (b : bool) :
  Node_eval (root r) tx = Ok b -> matches tx r = b.
Proof.
  unfold matches. intros ->. now destruct b.
Qed.

(** When no root raises, the loop records every rule in order and keeps
    the matched ones in order. *)
Lemma run_spec (tx : value) (ordered : list Rule)
    (trace : list (value * bool)) (matched : list Rule) :
  no_error ordered tx ->
  PolicyEngine.run tx ordered trace matched =
  Ok (trace ++ map (fun r => (name r, matches tx r)) ordered,
      matched ++ filter (matches tx) ordered).
Proof.
  revert trace matched.
  induction ordered as [| r rest IH]; intros trace matched Hok;
    cbn [PolicyEngine.run map filter].
  - now rewrite !app_nil_r.
  - destruct (Hok r (or_introl eq_refl)) as [b Hb].
    rewrite Hb, (matches_result _ _ Hb). cbn [bind].
    rewrite IH by (intros r' Hr'; apply Hok; now right).
    rewrite <- app_assoc. cbn [app].
    destruct b; [rewrite <- app_assoc |]; reflexivity.
Qed.

Lemma no_error_perm (rules ordered : list Rule) (tx : value) :
  Permutation rules ordered -> no_error rules tx -> no_error ordered tx.
Proof.
  intros Hperm Hok r Hr. apply Hok.
  eapply Permutation_in; [symmetry; exact Hperm | exact Hr].
Qed.

(** ** The maximum *)

Lemma action_rank_decision (a : value) :
  is_decision a = true -> PolicyEngine.action_rank a = Ok (severity a).
Proof.
  unfold is_decision, severity, PolicyEngine.action_rank.
  destruct a; try discriminate. cbn [Py.eq].
  destruct (String.eqb_spec s "block") as [-> | _]; [reflexivity |].
  destruct (String.eqb_spec s "flag") as [-> | _]; [reflexivity |].
  destruct (String.eqb_spec s "allow") as [-> | _]; [reflexivity |].
  discriminate.
Qed.

Lemma action_rank_other (a : value) :
  is_decision a = false ->
  PolicyEngine.action_rank a = Err KeyError \/ PolicyEngine.action_rank a = Err TypeError.
Proof.
  unfold is_decision, PolicyEngine.action_rank.
  destruct a; auto. cbn [Py.eq].
  destruct (String.eqb s "block"), (String.eqb s "flag"), (String.eqb s "allow");
    cbn; intros H; try discriminate; auto.
Qed.

Lemma max_key_weight (r : Rule) :
  is_decision (action r) = true -> PolicyEngine.max_key r = Ok (weight r).
Proof.
  intros H. unfold PolicyEngine.max_key, weight.
  now rewrite (action_rank_decision _ H).
Qed.

Lemma max_key_gt_spec (a b : Z * Z) :
  (PolicyEngine.max_key_gt a b = true -> lex_lt b a) /\
  (PolicyEngine.max_key_gt a b = false -> lex_le a b).
Proof.
  destruct a as [a1 a2], b as [b1 b2].
  unfold PolicyEngine.max_key_gt, lex_le, lex_lt. cbn [fst snd].
  destruct (Z.eqb_spec a1 b1) as [-> | Hne]; cbn [negb]; split; intros H.
  - right. split; [reflexivity |]. apply Z.gtb_lt in H. lia.
  - rewrite Z.gtb_ltb in H. apply Z.ltb_ge in H.
    destruct (Z.eq_dec a2 b2) as [-> | Hne]; [now right | left; right; lia].
  - apply Z.gtb_lt in H. left. lia.
  - rewrite Z.gtb_ltb in H. apply Z.ltb_ge in H. left. left. lia.
Qed.

Lemma lex_lt_le_trans (a b c : Z * Z) : lex_lt a b -> lex_le b c -> lex_lt a c.
Proof.
  unfold lex_le, lex_lt. intros Hab [Hbc | <-]; [| exact Hab]. lia.
Qed.

Lemma lex_le_lt_trans (a b c : Z * Z) : lex_le a b -> lex_lt b c -> lex_lt a c.
Proof.
  unfold lex_le, lex_lt. intros [Hab | ->] Hbc; [| exact Hbc]. lia.
Qed.

(** The scan of [max]: the result is the first item of greatest weight. *)
Lemma max_from_spec (items : list Rule) (best : Rule) :
  Forall (fun r => is_decision (action r) = true) items ->
  exists w before after,
    PolicyEngine.max_from best (weight best) items = Ok w /\
    best :: items = before ++ w :: after /\
    Forall (fun r => lex_lt (weight r) (weight w)) before /\
    Forall (fun r => lex_le (weight r) (weight w)) after.
Proof.
  revert best.
  induction items as [| r items IH]; intros best Hvalid; cbn [PolicyEngine.max_from].
  - exists best, [], []. repeat split; constructor.
  - inversion Hvalid as [| ? ? Hr Hitems]; subst.
    rewrite (max_key_weight _ Hr). cbn [bind].
    destruct (max_key_gt_spec (weight r) (weight best)) as [Hgt Hle].
    destruct (PolicyEngine.max_key_gt (weight r) (weight best)).
    + destruct (IH r Hitems) as [w [before [after [Hmax [Hsplit [Hb Ha]]]]]].
      exists w, (best :: before), after. repeat split; try assumption.
      * now rewrite Hsplit.
      * constructor; [| exact Hb].
        destruct before as [| x before]; cbn [app] in Hsplit.
        -- injection Hsplit as <- _. now apply Hgt.
        -- injection Hsplit as <- _. inversion Hb; subst.
           eapply lex_lt_le_trans; [now apply Hgt | now left].
    + destruct (IH best Hitems) as [w [before [after [Hmax [Hsplit [Hb Ha]]]]]].
      destruct before as [| x before]; cbn [app] in Hsplit.
      * injection Hsplit as <- <-.
        exists best, [], (r :: items). repeat split; try assumption.
        constructor; [now apply Hle | exact Ha].
      * injection Hsplit as <- ->. inversion Hb as [| ? ? Hx Hb']; subst.
        exists w, (best :: r :: before), after. repeat split; try assumption.
        constructor; [exact Hx |]. constructor; [| exact Hb'].
        eapply lex_le_lt_trans; [now apply Hle | exact Hx].
Qed.

Lemma py_max_spec (items : list Rule) :
  items <> [] ->
  Forall (fun r => is_decision (action r) = true) items ->
  exists w before after,
    PolicyEngine.py_max items = Ok w /\
    items = before ++ w :: after /\
    Forall (fun r => lex_lt (weight r) (weight w)) before /\
    Forall (fun r => lex_le (weight r) (weight w)) after.
Proof.
  intros Hne Hvalid. destruct items as [| r items]; [congruence |].
  inversion Hvalid as [| ? ? Hr Hitems]; subst.
  cbn [PolicyEngine.py_max]. rewrite (max_key_weight _ Hr). cbn [bind].
  now apply max_from_spec.
Qed.

(** [max] raises as soon as one item has no rank. *)
Lemma max_from_raises (items : list Rule) (best : Rule) (k : Z * Z) :
  Exists (fun r => is_decision (action r) = false) items ->
  PolicyEngine.max_from best k items = Err KeyError \/
  PolicyEngine.max_from best k items = Err TypeError.
Proof.
  revert best k.
  induction items as [| r items IH]; intros best k Hbad; [inversion Hbad |].
  cbn [PolicyEngine.max_from]. unfold PolicyEngine.max_key.
  destruct (is_decision (action r)) eqn:Hr.
  - rewrite (action_rank_decision _ Hr). cbn [bind].
    assert (Hrest : Exists (fun r => is_decision (action r) = false) items).
    { inversion Hbad; subst; [congruence | assumption]. }
    destruct (PolicyEngine.max_key_gt _ k); now apply IH.
  - destruct (action_rank_other _ Hr) as [-> | ->]; auto.
Qed.

Lemma py_max_raises (items : list Rule) :
  Exists (fun r => is_decision (action r) = false) items ->
  PolicyEngine.py_max items = Err KeyError \/
  PolicyEngine.py_max items = Err TypeError.
Proof.
  intros Hbad. destruct items as [| r items]; [inversion Hbad |].
  cbn [PolicyEngine.py_max]. unfold PolicyEngine.max_key.
  destruct (is_decision (action r)) eqn:Hr.
  - rewrite (action_rank_decision _ Hr). cbn [bind].
    apply max_from_raises. inversion Hbad; subst; [congruence | assumption].
  - destruct (action_rank_other _ Hr) as [-> | ->]; auto.
Qed.

(** ** Evaluation *)

Lemma filter_none {A : Type} (f : A -> bool) (l : list A) :
  (forall x, In x l -> f x = false) -> filter f l = [].
Proof.
  induction l as [| x l IH]; intros H; cbn [filter]; [reflexivity |].
  rewrite (H x (or_introl eq_refl)). apply IH. intros y Hy. apply H. now right.
Qed.

Lemma StronglySorted_filter {A : Type} (R : A -> A -> Prop) (f : A -> bool) (l : list A) :
  StronglySorted R l -> StronglySorted R (filter f l).
Proof.
  induction 1 as [| x l Hs IH Hall]; cbn [filter]; [constructor |].
  destruct (f x); [| exact IH].
  constructor; [exact IH |].
  apply Forall_forall. intros y Hy. apply filter_In in Hy.
  rewrite Forall_forall in Hall. now apply Hall.
Qed.

Lemma StronglySorted_after {A : Type} (R : A -> A -> Prop) (l1 l2 : list A) (w : A) :
  StronglySorted R (l1 ++ w :: l2) -> Forall (R w) l2.
Proof.
  induction l1 as [| x l1 IH]; cbn [app]; intros H; inversion H; subst; auto.
Qed.

Lemma NoDup_map_eq {A B : Type} (f : A -> B) (l : list A) (x y : A) :
  NoDup (map f l) -> In x l -> In y l -> f x = f y -> x = y.
Proof.
  induction l as [| z l IH]; cbn [map]; intros Hnd Hx Hy Hf; [contradiction |].
  inversion Hnd as [| ? ? Hnotin Hnd']; subst.
  destruct Hx as [-> | Hx], Hy as [-> | Hy]; auto.
  - exfalso. apply Hnotin. rewrite Hf. now apply in_map.
  - exfalso. apply Hnotin. rewrite <- Hf. now apply in_map.
Qed.

(** [evaluate] on a rule set named by strings, when no condition raises:
    the rules are put in order, the trace lists all of them, and the
    winner is sought among the matched ones. *)
Lemma evaluate_spec (rules : list Rule) (tx : value) :
  Forall str_named rules ->
  no_error rules tx ->
  exists ordered,
    Permutation rules ordered /\
    StronglySorted rule_le ordered /\
    PolicyEngine.evaluate rules tx =
    match filter (matches tx) ordered with
    | [] =>
        Ok {| PolicyEngine.decision := VStr "allow";
              PolicyEngine.rule := VNone;
              PolicyEngine.matched_rules := [];
              PolicyEngine.trace := map (fun r => (name r, matches tx r)) ordered |}
    | _ :: _ =>
        chosen <- PolicyEngine.py_max (filter (matches tx) ordered) ;;
        Ok {| PolicyEngine.decision := action chosen;
              PolicyEngine.rule := name chosen;
              PolicyEngine.matched_rules := map name (filter (matches tx) ordered);
              PolicyEngine.trace := map (fun r => (name r, matches tx r)) ordered |}
    end.
Proof.
  intros Hnamed Hok.
  destruct (sorted_spec Hnamed) as [ordered [Hsort [Hperm Hsorted]]].
  exists ordered. repeat split; try assumption.
  unfold PolicyEngine.evaluate. rewrite Hsort. cbn [bind].
  rewrite (run_spec [] [] (no_error_perm Hperm Hok)). cbn [bind app].
  now destruct (filter (matches tx) ordered).
Qed.

(** The rule [evaluate] chooses, when every matched rule has a rank. *)
Lemma evaluate_winner (rules : list Rule) (tx : value) :
  Forall typed rules ->
  NoDup (map name rules) ->
  no_error rules tx ->
  (exists r, In r rules /\ matches tx r = true) ->
  exists out w,
    PolicyEngine.evaluate rules tx = Ok out /\
    winner rules tx w /\
    PolicyEngine.rule out = name w /\
    PolicyEngine.decision out = action w.
Proof.
  intros Htyped Hnodup Hok [m [Hm Hmatch]].
  assert (Hnamed : Forall str_named rules).
  { eapply Forall_impl; [| exact Htyped]. now intros r [H _]. }
  destruct (evaluate_spec Hnamed Hok) as [ordered [Hperm [Hsorted Heval]]].
  set (matched := filter (matches tx) ordered) in *.
  assert (Hin : forall r, In r matched <-> In r rules /\ matches tx r = true).
  { intros r. unfold matched. rewrite filter_In. split; intros [H1 H2]; split; auto.
    - eapply Permutation_in; [symmetry; exact Hperm | exact H1].
    - eapply Permutation_in; [exact Hperm | exact H1]. }
  assert (Hne : matched <> []).
  { intros E. assert (H : In m matched) by (apply Hin; auto).
    rewrite E in H. contradiction. }
  assert (Hvalid : Forall (fun r => is_decision (action r) = true) matched).
  { apply Forall_forall. intros r Hr. apply Hin in Hr. destruct Hr as [Hr _].
    rewrite Forall_forall in Htyped. now destruct (Htyped r Hr). }
  destruct (py_max_spec Hne Hvalid) as [w [before [after [Hmax [Hsplit [Hb Ha]]]]]].
  assert (Hw : In w matched) by (rewrite Hsplit; apply in_elt).
  exists {| PolicyEngine.decision := action w;
            PolicyEngine.rule := name w;
            PolicyEngine.matched_rules := map name matched;
            PolicyEngine.trace := map (fun r => (name r, matches tx r)) ordered |}, w.
  split; [| split; [| split; reflexivity]].
  { rewrite Heval. destruct matched; [congruence |]. now rewrite Hmax. }
  destruct (proj1 (Hin w) Hw) as [Hwin Hwm].
  split; [exact Hwin |]. split; [exact Hwm |].
  intros r Hr Hrm.
  assert (Hrin : In r matched) by (apply Hin; auto).
  rewrite Hsplit in Hrin. apply in_app_or in Hrin.
  rewrite Forall_forall in Hb, Ha.
  split.
  - destruct Hrin as [Hrin | [<- | Hrin]].
    + left. now apply Hb.
    + now right.
    + now apply Ha.
  - intros Hweight Hdiff.
    destruct Hrin as [Hrin | [-> | Hrin]].
    + apply Hb in Hrin. rewrite Hweight in Hrin.
      unfold lex_lt in Hrin. lia.
    + congruence.
    + assert (Hle : rule_le w r).
      { assert (Hs : StronglySorted rule_le (before ++ w :: after)).
        { rewrite <- Hsplit. now apply StronglySorted_filter. }
        apply StronglySorted_after in Hs. rewrite Forall_forall in Hs. now apply Hs. }
      assert (Hprio : priority r = priority w).
      { unfold weight in Hweight. now injection Hweight. }
      destruct Hle as [Hlt | [_ Hle]]; [lia |].
      right. split; [now symmetry |].
      apply leb_neq_ltb; [exact Hle |].
      intros Hname. apply Hdiff.
      apply (NoDup_map_eq name rules); try assumption.
      rewrite Forall_forall in Hnamed.
      destruct (Hnamed r Hr) as [sr Er]. destruct (Hnamed w Hwin) as [sw Ew].
      unfold name_str in Hname. rewrite Er, Ew in Hname. congruence.
Qed.

(** The description [winner] fits one rule only. *)
Lemma winner_unique (rules : list Rule) (tx : value) (w w' : Rule) :
  Forall str_named rules ->
  NoDup (map name rules) ->
  winner rules tx w -> winner rules tx w' -> w = w'.
Proof.
  intros Hnamed Hnodup [Hin [Hm Hmax]] [Hin' [Hm' Hmax']].
  destruct (Hmax w' Hin' Hm') as [Hle Htie].
  destruct (Hmax' w Hin Hm) as [Hle' Htie'].
  assert (Heq : weight w' = weight w).
  { destruct Hle as [Hlt | E]; [| exact E].
    destruct Hle' as [Hlt' | E]; [| now symmetry].
    unfold lex_lt in *. lia. }
  assert (Hprio : priority w' = priority w).
  { unfold weight in Heq. now injection Heq. }
  rewrite Forall_forall in Hnamed.
  destruct (Hnamed w Hin) as [s Es]. destruct (Hnamed w' Hin') as [s' Es'].
  destruct (String.string_dec s s') as [-> | Hs].
  - apply (NoDup_map_eq name rules); try assumption. congruence.
  - assert (Hdiff : w <> w') by (intros ->; congruence).
    assert (Hdiff' : w' <> w) by (intros E; now apply Hdiff).
    destruct (Htie Heq Hdiff') as [H1 | [_ H1]]; [lia |].
    destruct (Htie' (eq_sym Heq) Hdiff) as [H2 | [_ H2]]; [lia |].
    exfalso. apply Hs.
    unfold name_str in H1, H2. rewrite Es, Es' in H1, H2.
    apply String.leb_antisym; now apply ltb_leb.
Qed.

(** ** The claims on [PolicyEngine.evaluate] *)

(** C7: when the root of every rule evaluates to false on the transaction,
    [evaluate] returns the decision "allow", no winning rule ([None]) and
    no matched rule. *)
Theorem no_match_allows (rules : list Rule) (tx : value) :
  Forall str_named rules ->
  (forall r, In r rules -> Node_eval (root r) tx = Ok false) ->
  exists out,
    PolicyEngine.evaluate rules tx = Ok out /\
    PolicyEngine.decision out = VStr "allow" /\
    PolicyEngine.rule out = VNone /\
    PolicyEngine.matched_rules out = [].
Proof.
  intros Hnamed Hfalse.
  assert (Hok : no_error rules tx) by (intros r Hr; eauto).
  destruct (evaluate_spec Hnamed Hok) as [ordered [Hperm [_ Heval]]].
  rewrite filter_none in Heval.
  - eexists. split; [exact Heval |]. now repeat split.
  - intros r Hr. apply matches_result, Hfalse.
    eapply Permutation_in; [symmetry; exact Hperm | exact Hr].
Qed.

Lemma no_match_allows_witness :
  Forall str_named Demo.rules /\
  (forall r, In r Demo.rules -> Node_eval (root r) (Demo.tx true 15000) = Ok false) /\
  exists out,
    PolicyEngine.evaluate Demo.rules (Demo.tx true 15000) = Ok out /\
    PolicyEngine.decision out = VStr "allow" /\
    PolicyEngine.rule out = VNone /\
    PolicyEngine.matched_rules out = [].
Proof.
  assert (H1 : Forall str_named Demo.rules).
  { repeat constructor; eexists; reflexivity. }
  assert (H2 : forall r, In r Demo.rules ->
                         Node_eval (root r) (Demo.tx true 15000) = Ok false).
  { intros r [<- | [<- | [<- | []]]]; reflexivity. }
  split; [exact H1 |]. split; [exact H2 |].
  exact (@no_match_allows _ _ H1 H2).
Defined.

(** C6: on a rule set of the data model and a transaction on which no
    condition raises, the trace of [evaluate] has one entry per rule, the
    rule's name with the boolean its root evaluates to, in (descending
    priority, ascending name) order; its length is the number of rules. *)
Theorem trace_lists_every_rule (rules : list Rule) (tx : value) :
  Forall typed rules ->
  no_error rules tx ->
  exists out ordered,
    PolicyEngine.evaluate rules tx = Ok out /\
    Permutation rules ordered /\
    StronglySorted rule_le ordered /\
    Forall2 (fun r entry => fst entry = name r /\
                            Node_eval (root r) tx = Ok (snd entry))
            ordered (PolicyEngine.trace out) /\
    List.length (PolicyEngine.trace out) = List.length rules.
Proof.
  intros Htyped Hok.
  assert (Hnamed : Forall str_named rules).
  { eapply Forall_impl; [| exact Htyped]. now intros r [H _]. }
  destruct (evaluate_spec Hnamed Hok) as [ordered [Hperm [Hsorted Heval]]].
  assert (Htrace : Forall2 (fun r entry => fst entry = name r /\
                                           Node_eval (root r) tx = Ok (snd entry))
                           ordered (map (fun r => (name r, matches tx r)) ordered)).
  { pose proof (no_error_perm Hperm Hok) as Hok'. clear - Hok'.
    induction ordered as [| r ordered IH]; cbn [map]; constructor.
    - cbn [fst snd]. split; [reflexivity |].
      destruct (Hok' r (or_introl eq_refl)) as [b Hb].
      now rewrite (matches_result _ _ Hb).
    - apply IH. intros r' Hr'. apply Hok'. now right. }
  assert (Hlen : List.length (map (fun r => (name r, matches tx r)) ordered)
                 = List.length rules).
  { rewrite length_map. symmetry. now apply Permutation_length. }
  destruct (filter (matches tx) ordered) as [| m matched] eqn:Hmatched.
  - eexists. exists ordered. split; [exact Heval |]. now repeat split.
  - assert (Hvalid : Forall (fun r => is_decision (action r) = true) (m :: matched)).
    { rewrite <- Hmatched. apply Forall_forall. intros r Hr.
      apply filter_In in Hr. destruct Hr as [Hr _].
      rewrite Forall_forall in Htyped.
      assert (Hin : In r rules)
        by (eapply Permutation_in; [symmetry; exact Hperm | exact Hr]).
      now destruct (Htyped r Hin). }
    destruct (@py_max_spec (m :: matched)) as [w [_ [_ [Hmax _]]]];
      [discriminate | exact Hvalid |].
    rewrite Hmax in Heval. cbn [bind] in Heval.
    eexists. exists ordered. split; [exact Heval |]. now repeat split.
Qed.

Lemma trace_lists_every_rule_witness :
  Forall typed Demo.rules /\
  no_error Demo.rules (Demo.tx false 5000) /\
  exists out ordered,
    PolicyEngine.evaluate Demo.rules (Demo.tx false 5000) = Ok out /\
    Permutation Demo.rules ordered /\
    StronglySorted rule_le ordered /\
    Forall2 (fun r entry => fst entry = name r /\
                            Node_eval (root r) (Demo.tx false 5000) = Ok (snd entry))
            ordered (PolicyEngine.trace out) /\
    List.length (PolicyEngine.trace out) = List.length Demo.rules.
Proof.
  assert (H1 : Forall typed Demo.rules).
  { repeat constructor; eexists; reflexivity. }
  assert (H2 : no_error Demo.rules (Demo.tx false 5000)).
  { intros r [<- | [<- | [<- | []]]]; eexists; reflexivity. }
  split; [exact H1 |]. split; [exact H2 |].
  exact (@trace_lists_every_rule _ _ H1 H2).
Defined.

(** C4: on a rule set of the data model with unique names and a
    transaction on which no condition raises and some rule matches,
    [evaluate] returns the name and the action of the winning rule: the
    matched rule of greatest (severity rank, priority), with block 2, flag
    1, allow 0, and among matched rules of that same weight the one that
    comes first in the (priority descending, name ascending) order.  There
    is exactly one such rule.  [block_beats_flag] and
    [higher_priority_flag_wins] below are the two instances the
    specification names. *)
Theorem evaluate_selects_winner (rules : list Rule) (tx : value) :
  Forall typed rules ->
  NoDup (map name rules) ->
  no_error rules tx ->
  (exists r, In r rules /\ matches tx r = true) ->
  exists out w,
    PolicyEngine.evaluate rules tx = Ok out /\
    winner rules tx w /\
    (forall w', winner rules tx w' -> w' = w) /\
    PolicyEngine.rule out = name w /\
    PolicyEngine.decision out = action w.
Proof.
  intros Htyped Hnodup Hok Hsome.
  destruct (evaluate_winner Htyped Hnodup Hok Hsome) as [out [w [He [Hw [Hr Hd]]]]].
  exists out, w.
  split; [exact He |]. split; [exact Hw |]. split; [| now split].
  intros w' Hw'. apply (@winner_unique rules tx); try assumption.
  eapply Forall_impl; [| exact Htyped]. now intros r [H _].
Qed.

Lemma evaluate_selects_winner_witness :
  Forall typed [Demo.loud_flag; Demo.quiet_block] /\
  NoDup (map name [Demo.loud_flag; Demo.quiet_block]) /\
  no_error [Demo.loud_flag; Demo.quiet_block] (Demo.tx true 15000) /\
  (exists r, In r [Demo.loud_flag; Demo.quiet_block] /\
             matches (Demo.tx true 15000) r = true) /\
  exists out w,
    PolicyEngine.evaluate [Demo.loud_flag; Demo.quiet_block] (Demo.tx true 15000) = Ok out /\
    winner [Demo.loud_flag; Demo.quiet_block] (Demo.tx true 15000) w /\
    (forall w', winner [Demo.loud_flag; Demo.quiet_block] (Demo.tx true 15000) w' -> w' = w) /\
    PolicyEngine.rule out = name w /\
    PolicyEngine.decision out = action w.
Proof.
  assert (H1 : Forall typed [Demo.loud_flag; Demo.quiet_block]).
  { repeat constructor; eexists; reflexivity. }
  assert (H2 : NoDup (map name [Demo.loud_flag; Demo.quiet_block])).
  { repeat constructor; cbn; intuition discriminate. }
  assert (H3 : no_error [Demo.loud_flag; Demo.quiet_block] (Demo.tx true 15000)).
  { intros r [<- | [<- | []]]; eexists; reflexivity. }
  assert (H4 : exists r, In r [Demo.loud_flag; Demo.quiet_block] /\
                         matches (Demo.tx true 15000) r = true).
  { exists Demo.quiet_block. split; [right; left; reflexivity | reflexivity]. }
  split; [exact H1 |]. split; [exact H2 |]. split; [exact H3 |]. split; [exact H4 |].
  exact (@evaluate_selects_winner _ _ H1 H2 H3 H4).
Defined.

(** Of two matched rules, the heavier one is selected, in whichever order
    the rule set holds them. *)
Lemma two_rules_winner (a b : Rule) (rules : list Rule) (tx : value) :
  typed a -> typed b -> name a <> name b ->
  Node_eval (root a) tx = Ok true ->
  Node_eval (root b) tx = Ok true ->
  lex_lt (weight b) (weight a) ->
  Permutation [a; b] rules ->
  exists out,
    PolicyEngine.evaluate rules tx = Ok out /\
    PolicyEngine.rule out = name a /\
    PolicyEngine.decision out = action a.
Proof.
  intros Ha Hb Hne Hta Htb Hlt Hperm.
  assert (Hmem : forall r, In r rules -> r = a \/ r = b).
  { intros r Hr. apply (Permutation_in _ (Permutation_sym Hperm)) in Hr.
    destruct Hr as [<- | [<- | []]]; auto. }
  assert (Htyped : Forall typed rules).
  { apply (Permutation_Forall Hperm).
    constructor; [exact Ha | constructor; [exact Hb | constructor]]. }
  assert (Hnodup : NoDup (map name rules)).
  { eapply Permutation_NoDup; [apply Permutation_map; exact Hperm |].
    repeat constructor; cbn; intuition. }
  assert (Hok : no_error rules tx).
  { intros r Hr. destruct (Hmem r Hr) as [-> | ->]; eauto. }
  assert (Hina : In a rules).
  { eapply Permutation_in; [exact Hperm | now left]. }
  assert (Hma : matches tx a = true) by now apply matches_result.
  destruct (@evaluate_winner rules tx Htyped Hnodup Hok) as [out [w [He [Hw [Hr Hd]]]]].
  { exists a. now split. }
  assert (w = a) as ->.
  { destruct Hw as [Hin [_ Hmax]].
    destruct (Hmem w Hin) as [-> | ->]; [reflexivity |].
    destruct (Hmax a Hina Hma) as [[Hl | He'] _]; exfalso.
    - unfold lex_lt in *. lia.
    - rewrite He' in Hlt. unfold lex_lt in Hlt. lia. }
  exists out. now repeat split.
Qed.

(** Severity first: of a matched block and a matched flag, whatever their
    priorities, the block is selected. *)
Lemma block_beats_flag (a b : Rule) (rules : list Rule) (tx : value) :
  str_named a -> str_named b -> name a <> name b ->
  action a = VStr "block" -> action b = VStr "flag" ->
  Node_eval (root a) tx = Ok true ->
  Node_eval (root b) tx = Ok true ->
  Permutation [a; b] rules ->
  exists out,
    PolicyEngine.evaluate rules tx = Ok out /\
    PolicyEngine.rule out = name a /\
    PolicyEngine.decision out = VStr "block".
Proof.
  intros Ha Hb Hne Eblock Eflag Hta Htb Hperm.
  rewrite <- Eblock.
  apply two_rules_winner with (b := b); try assumption.
  - split; [exact Ha | now rewrite Eblock].
  - split; [exact Hb | now rewrite Eflag].
  - unfold lex_lt, weight. rewrite Eblock, Eflag. cbn. lia.
Qed.

(** Priority next: of two matched flags of priorities 10 and 5, the one of
    priority 10 is selected. *)
Lemma higher_priority_flag_wins (a b : Rule) (rules : list Rule) (tx : value) :
  str_named a -> str_named b -> name a <> name b ->
  action a = VStr "flag" -> action b = VStr "flag" ->
  priority a = 10 -> priority b = 5 ->
  Node_eval (root a) tx = Ok true ->
  Node_eval (root b) tx = Ok true ->
  Permutation [a; b] rules ->
  exists out,
    PolicyEngine.evaluate rules tx = Ok out /\
    PolicyEngine.rule out = name a /\
    PolicyEngine.decision out = VStr "flag".
Proof.
  intros Ha Hb Hne Ea Eb Pa Pb Hta Htb Hperm.
  rewrite <- Ea.
  apply two_rules_winner with (b := b); try assumption.
  - split; [exact Ha | now rewrite Ea].
  - split; [exact Hb | now rewrite Eb].
  - unfold lex_lt, weight. rewrite Ea, Eb, Pa, Pb. cbn. lia.
Qed.

(** An error inside a condition ends the whole call: it is not turned into
    a decision. *)
Lemma run_raises (tx : value) (ordered : list Rule)
    (trace : list (value * bool)) (matched : list Rule) :
  Exists (fun r => raises (Node_eval (root r) tx)) ordered ->
  raises (PolicyEngine.run tx ordered trace matched).
Proof.
  revert trace matched.
  induction ordered as [| r rest IH]; intros trace matched Hbad; [inversion Hbad |].
  cbn [PolicyEngine.run].
  destruct (Node_eval (root r) tx) as [b | e] eqn:Hr; cbn [bind].
  - apply IH. inversion Hbad as [? ? [e He] | ? ? Hrest]; subst; [congruence | exact Hrest].
  - now exists e.
Qed.

Lemma evaluate_propagates_errors (rules : list Rule) (tx : value) (r : Rule) :
  Forall str_named rules ->
  In r rules ->
  raises (Node_eval (root r) tx) ->
  raises (PolicyEngine.evaluate rules tx).
Proof.
  intros Hnamed Hr Hbad.
  destruct (sorted_spec Hnamed) as [ordered [Hsort [Hperm _]]].
  unfold PolicyEngine.evaluate. rewrite Hsort. cbn [bind].
  destruct (@run_raises tx ordered [] []) as [e He].
  - apply Exists_exists. exists r. split; [| exact Hbad].
    eapply Permutation_in; [exact Hperm | exact Hr].
  - rewrite He. now exists e.
Qed.

(** A matched rule whose action has no rank makes [evaluate] raise. *)
Lemma evaluate_raises_without_rank (rules : list Rule) (tx : value) (r : Rule) :
  Forall str_named rules ->
  no_error rules tx ->
  In r rules ->
  matches tx r = true ->
  is_decision (action r) = false ->
  PolicyEngine.evaluate rules tx = Err KeyError \/
  PolicyEngine.evaluate rules tx = Err TypeError.
Proof.
  intros Hnamed Hok Hr Hm Hbad.
  destruct (evaluate_spec Hnamed Hok) as [ordered [Hperm [_ Heval]]].
  assert (Hin : In r (filter (matches tx) ordered)).
  { apply filter_In. split; [| exact Hm].
    eapply Permutation_in; [exact Hperm | exact Hr]. }
  assert (Hex : Exists (fun r => is_decision (action r) = false)
                       (filter (matches tx) ordered)).
  { apply Exists_exists. exists r. now split. }
  rewrite Heval.
  destruct (filter (matches tx) ordered) as [| m matched]; [contradiction |].
  destruct (py_max_raises Hex) as [-> | ->]; auto.
Qed.

Lemma unknown_operator_raises_when_present_witness :
  known_op (VStr "gte") = false /\
  Condition_eval (VStr "amount") (VStr "gte") (VInt 100) (Demo.tx true 15000)
  = Err (UnknownOperator (VStr "gte")).
Proof.
  split; [reflexivity |].
  exact (@unknown_operator_raises_when_present
           "amount" (VStr "gte") (VInt 100) (Demo.tx true 15000) eq_refl).
Defined.

(** ** The claims on [load_rules_from_yaml] *)

Section LoaderClaims.

Variable int_of_str : string -> option Z.

(** Every well-formed rule-set specification loads, one rule per item. *)
Lemma load_rules_total (items : list value) :
  Forall (well_formed_rule int_of_str) items ->
  exists rules,
    load_rules_from_yaml int_of_str (VList items) = Ok rules /\
    List.length rules = List.length items /\
    Forall2 (fun item rule => load_rule int_of_str item = Ok rule) items rules.
Proof.
  intros Hwf. unfold load_rules_from_yaml. cbn [Py.iter bind].
  destruct (@mapM_total _ _ (load_rule int_of_str) items) as [rules [Hload Hlen]].
  - eapply Forall_impl; [| exact Hwf]. intros r Hr. now apply load_rule_total.
  - exists rules. repeat split; try assumption. now apply mapM_Forall2.
Qed.

(** C1 (the code departs from it): a rule loaded from a specification
    whose [when] is absent or empty gets the condition [__always__ eq
    True], which is true only on a transaction that has a key [__always__]
    equal to [True]; on every other transaction the rule does not match. *)
Theorem default_when_needs_always_key (r w : value) (rule : Rule) (tx : value) :
  Py.get r "when" VNone = Ok w ->
  Py.truthy w = false ->
  load_rule int_of_str r = Ok rule ->
  Node_eval (root rule) tx =
  Ok match resolve ["__always__"] tx with
     | Some v => Py.eq v (VBool true)
     | None => false
     end.
Proof.
  intros Hw Hempty Hload.
  rewrite (load_rule_default_root _ _ Hw Hempty Hload).
  apply always_node_eval.
Qed.

(** C2, amended: the loader does not look at operators.  A condition
    specification compiles to a Condition that carries its operator as
    given; every well-formed rule-set specification loads, each item into
    its rule; [update_policy] installs exactly the rules that
    [load_rules_from_yaml] returned; when loading fails, [update_policy]
    leaves the active rule set as it was. *)
Theorem operators_are_not_checked :
  (forall d field op val,
      Py.has_key "all" d = false -> Py.has_key "any" d = false ->
      Py.lookup "field" d = Some field ->
      Py.lookup "op" d = Some op ->
      Py.lookup "value" d = Some val ->
      build_node (VDict d) = Ok (Condition field op val)) /\
  (forall items engine,
      Forall (well_formed_rule int_of_str) items ->
      exists rules,
        load_rules_from_yaml int_of_str (VList items) = Ok rules /\
        Forall2 (fun item rule => load_rule int_of_str item = Ok rule) items rules /\
        List.length rules = List.length items /\
        update_policy int_of_str (VList items) engine
        = (rules, PolicyUpdated (List.length items))) /\
  (forall raw engine rules,
      load_rules_from_yaml int_of_str raw = Ok rules ->
      update_policy int_of_str raw engine = (rules, PolicyUpdated (List.length rules))) /\
  (forall raw engine e,
      load_rules_from_yaml int_of_str raw = Err e ->
      update_policy int_of_str raw engine = (engine, Http400 e)).
Proof.
  split; [| split; [| split]].
  - intros d field op val Hall Hany Hf Ho Hv.
    rewrite build_node_dict, Hall, Hany. cbn [orb]. unfold Py.item.
    now rewrite Hf, Ho, Hv.
  - intros items engine Hwf.
    destruct (load_rules_total Hwf) as [rules [Hload [Hlen Hall]]].
    exists rules. split; [exact Hload |]. split; [exact Hall |]. split; [exact Hlen |].
    unfold update_policy. now rewrite Hload, Hlen.
  - intros raw engine rules Hload. unfold update_policy. now rewrite Hload.
  - intros raw engine e Hload. unfold update_policy. now rewrite Hload.
Qed.

(** C3, amended: the loader does not look at actions.  Every well-formed
    rule-set specification loads, and each rule carries the action of its
    specification as given; an action outside allow, block, flag is
    reported only by [evaluate], which raises KeyError (TypeError when the
    action cannot be hashed) on a transaction that the rule matches. *)
Theorem actions_are_not_checked :
  (forall items,
      Forall (well_formed_rule int_of_str) items ->
      exists rules,
        load_rules_from_yaml int_of_str (VList items) = Ok rules /\
        Forall2 (fun item rule => Py.getitem item "action" = Ok (action rule))
                items rules) /\
  (forall rules tx r,
      Forall str_named rules ->
      no_error rules tx ->
      In r rules ->
      matches tx r = true ->
      is_decision (action r) = false ->
      PolicyEngine.evaluate rules tx = Err KeyError \/
      PolicyEngine.evaluate rules tx = Err TypeError).
Proof.
  split.
  - intros items Hwf.
    destruct (load_rules_total Hwf) as [rules [Hload [_ Hall]]].
    exists rules. split; [exact Hload |].
    eapply Forall2_impl; [| exact Hall].
    intros item rule H. now destruct (load_rule_fields _ _ H) as [_ [Ha _]].
  - intros rules tx r. apply evaluate_raises_without_rank.
Qed.

End LoaderClaims.

Lemma default_when_needs_always_key_witness :
  Py.get (Demo.rule_spec "default_allow" (VDict []) "allow" 0) "when" VNone
  = Ok (VDict []) /\
  Py.truthy (VDict []) = false /\
  load_rule Demo.no_int (Demo.rule_spec "default_allow" (VDict []) "allow" 0)
  = Ok {| name := VStr "default_allow"; root := always_node;
          action := VStr "allow"; priority := 0 |} /\
  Node_eval always_node (Demo.tx true 15000) = Ok false.
Proof.
  split; [reflexivity |]. split; [reflexivity |]. split; [reflexivity |].
  exact (@default_when_needs_always_key Demo.no_int
           (Demo.rule_spec "default_allow" (VDict []) "allow" 0) (VDict [])
           {| name := VStr "default_allow"; root := always_node;
              action := VStr "allow"; priority := 0 |}
           (Demo.tx true 15000) eq_refl eq_refl eq_refl).
Defined.

(** [Demo.rules] is what the loader makes of [DEFAULT_RULES]. *)
Lemma DEFAULT_RULES_load (int_of_str : string -> option Z) :
  load_rules_from_yaml int_of_str Demo.DEFAULT_RULES = Ok Demo.rules.
Proof. reflexivity. Qed.

(** The scenarios of the specification.  An unhosted wallet is blocked and
    a high-value transfer is flagged; [default_allow] is not among the
    matched rules. *)
Lemma unhosted_wallet_scenario :
  PolicyEngine.evaluate Demo.rules (Demo.tx false 5000) =
  Ok {| PolicyEngine.decision := VStr "block";
        PolicyEngine.rule := VStr "block_unhosted_wallets";
        PolicyEngine.matched_rules := [VStr "block_unhosted_wallets"];
        PolicyEngine.trace := [(VStr "block_unhosted_wallets", true);
                               (VStr "flag_high_value_eur", false);
                               (VStr "default_allow", false)] |}.
Proof. reflexivity. Qed.

Lemma high_value_scenario :
  PolicyEngine.evaluate Demo.rules (Demo.tx true 250000) =
  Ok {| PolicyEngine.decision := VStr "flag";
        PolicyEngine.rule := VStr "flag_high_value_eur";
        PolicyEngine.matched_rules := [VStr "flag_high_value_eur"];
        PolicyEngine.trace := [(VStr "block_unhosted_wallets", false);
                               (VStr "flag_high_value_eur", true);
                               (VStr "default_allow", false)] |}.
Proof. reflexivity. Qed.

(** The third scenario expects [default_allow] to win; it does not match,
    and the decision is the default one. *)
Lemma default_allow_does_not_match :
  PolicyEngine.evaluate Demo.rules (Demo.tx true 15000) =
  Ok {| PolicyEngine.decision := VStr "allow";
        PolicyEngine.rule := VNone;
        PolicyEngine.matched_rules := [];
        PolicyEngine.trace := [(VStr "block_unhosted_wallets", false);
                               (VStr "flag_high_value_eur", false);
                               (VStr "default_allow", false)] |}.
Proof. reflexivity. Qed.

(** C2, as the specification states it, fails: a rule set with the
    operator [gte] loads, and [update_policy] replaces the active rule set
    by it, whatever that was. *)
Lemma unknown_operator_is_installed :
  known_op (VStr "gte") = false /\
  forall int_of_str engine,
    update_policy int_of_str Demo.odd_operator engine =
    ([{| name := VStr "odd_operator";
         root := Condition (VStr "amount") (VStr "gte") (VInt 100);
         action := VStr "flag"; priority := 5 |}],
     PolicyUpdated 1).
Proof.
  split; [reflexivity | intros; reflexivity].
Qed.

Lemma operators_are_not_checked_witness :
  Forall (well_formed_rule Demo.no_int)
         [Demo.rule_spec "odd_operator" (Demo.cond "amount" "gte" (VInt 100)) "flag" 5] /\
  exists rules,
    load_rules_from_yaml Demo.no_int Demo.odd_operator = Ok rules /\
    Forall2 (fun item rule => load_rule Demo.no_int item = Ok rule)
            [Demo.rule_spec "odd_operator" (Demo.cond "amount" "gte" (VInt 100)) "flag" 5]
            rules /\
    List.length rules = 1%nat /\
    update_policy Demo.no_int Demo.odd_operator Demo.rules = (rules, PolicyUpdated 1).
Proof.
  assert (H : Forall (well_formed_rule Demo.no_int)
                [Demo.rule_spec "odd_operator" (Demo.cond "amount" "gte" (VInt 100)) "flag" 5]).
  { repeat constructor. eexists. split; [reflexivity |].
    repeat split; cbn; try reflexivity.
    - right. now apply wf_condition.
    - now exists 5. }
  split; [exact H |].
  exact (proj1 (proj2 (operators_are_not_checked Demo.no_int)) _ Demo.rules H).
Defined.

(** C3, as the specification states it, fails: a specification with the
    action [deny] loads, and the Rule produced carries that action. *)
Lemma invalid_action_is_loaded :
  is_decision (VStr "deny") = false /\
  forall int_of_str,
    load_rules_from_yaml int_of_str Demo.odd_action =
    Ok [{| name := VStr "odd_action";
           root := Condition (VStr "amount") (VStr "gt") (VInt 100);
           action := VStr "deny"; priority := 5 |}].
Proof.
  split; [reflexivity | intros; reflexivity].
Qed.

Lemma actions_are_not_checked_witness :
  Forall (well_formed_rule Demo.no_int)
         [Demo.rule_spec "odd_action" (Demo.cond "amount" "gt" (VInt 100)) "deny" 5] /\
  exists rules,
    load_rules_from_yaml Demo.no_int Demo.odd_action = Ok rules /\
    Forall2 (fun item rule => Py.getitem item "action" = Ok (action rule))
            [Demo.rule_spec "odd_action" (Demo.cond "amount" "gt" (VInt 100)) "deny" 5]
            rules.
Proof.
  assert (H : Forall (well_formed_rule Demo.no_int)
                [Demo.rule_spec "odd_action" (Demo.cond "amount" "gt" (VInt 100)) "deny" 5]).
  { repeat constructor. eexists. split; [reflexivity |].
    repeat split; cbn; try reflexivity.
    - right. now apply wf_condition.
    - now exists 5. }
  split; [exact H |].
  exact (proj1 (actions_are_not_checked Demo.no_int) _ H).
Defined.

(** The rule loaded from [odd_action] matches a transaction of amount
    15000, and [evaluate] raises KeyError there. *)
Lemma invalid_action_raises_on_match :
  forall int_of_str,
    (rules <- load_rules_from_yaml int_of_str Demo.odd_action ;;
     PolicyEngine.evaluate rules (Demo.tx true 15000)) = Err KeyError.
Proof. intros; reflexivity. Qed.

(** * Further properties of the engine *)

(** ** What a returned outcome tells *)

Lemma insert_perm (r : Rule) (placed placed' : list Rule) :
  PolicyEngine.insert r placed = Ok placed' -> Permutation (r :: placed) placed'.
Proof.
  revert placed'.
  induction placed as [| x rest IH]; intros placed' H; cbn [PolicyEngine.insert] in H.
  - now injection H as <-.
  - destruct (PolicyEngine.sort_key_lt _ _) as [b |]; [| discriminate].
    cbn [bind] in H. destruct b.
    + now injection H as <-.
    + destruct (PolicyEngine.insert r rest) as [rest' |]; [| discriminate].
      cbn [bind] in H. injection H as <-.
      rewrite perm_swap. constructor. now apply IH.
Qed.

Lemma sort_into_perm (rules placed ordered : list Rule) :
  PolicyEngine.sort_into placed rules = Ok ordered ->
  Permutation (placed ++ rules) ordered.
Proof.
  revert placed.
  induction rules as [| r rules IH]; intros placed H; cbn [PolicyEngine.sort_into] in H.
  - injection H as <-. now rewrite app_nil_r.
  - destruct (PolicyEngine.insert r placed) as [placed' |] eqn:Hins; [| discriminate].
    cbn [bind] in H. apply IH in H. rewrite <- H.
    rewrite <- (insert_perm _ _ Hins). now rewrite <- Permutation_middle.
Qed.

Lemma sorted_perm (rules ordered : list Rule) :
  PolicyEngine.sorted rules = Ok ordered -> Permutation rules ordered.
Proof. intros H. now apply sort_into_perm in H. Qed.

Lemma run_no_error (tx : value) (ordered : list Rule)
    (trace : list (value * bool)) (matched : list Rule)
    (tm : list (value * bool) * list Rule) :
  PolicyEngine.run tx ordered trace matched = Ok tm -> no_error ordered tx.
Proof.
  revert trace matched.
  induction ordered as [| r rest IH]; intros trace matched H x Hx; [contradiction |].
  cbn [PolicyEngine.run] in H.
  destruct (Node_eval (root r) tx) as [b |] eqn:Hr; [| discriminate].
  cbn [bind] in H. destruct Hx as [<- | Hx]; [eauto |].
  eapply IH; eauto.
Qed.

Lemma action_rank_ok (a : value) (k : Z) :
  PolicyEngine.action_rank a = Ok k -> is_decision a = true.
Proof.
  intros H. destruct (is_decision a) eqn:E; [reflexivity |].
  destruct (action_rank_other _ E) as [H' | H']; congruence.
Qed.

Lemma max_key_ok (r : Rule) (k : Z * Z) :
  PolicyEngine.max_key r = Ok k -> is_decision (action r) = true.
Proof.
  unfold PolicyEngine.max_key. intros H.
  destruct (PolicyEngine.action_rank (action r)) as [z |] eqn:E; [| discriminate].
  now apply action_rank_ok in E.
Qed.

Lemma max_from_ranked (items : list Rule) (best w : Rule) (k : Z * Z) :
  PolicyEngine.max_from best k items = Ok w ->
  Forall (fun r => is_decision (action r) = true) items.
Proof.
  revert best k.
  induction items as [| r items IH]; intros best k H; [constructor |].
  cbn [PolicyEngine.max_from] in H.
  destruct (PolicyEngine.max_key r) as [kr |] eqn:Hr; [| discriminate].
  cbn [bind] in H. constructor; [now apply max_key_ok in Hr |].
  destruct (PolicyEngine.max_key_gt kr k); eapply IH; eauto.
Qed.

Lemma py_max_ranked (items : list Rule) (w : Rule) :
  PolicyEngine.py_max items = Ok w ->
  Forall (fun r => is_decision (action r) = true) items.
Proof.
  destruct items as [| r items]; [constructor |].
  cbn [PolicyEngine.py_max]. intros H.
  destruct (PolicyEngine.max_key r) as [kr |] eqn:Hr; [| discriminate].
  cbn [bind] in H. constructor; [now apply max_key_ok in Hr |].
  eapply max_from_ranked; eauto.
Qed.

(** Everything a returned outcome was computed from. *)
Lemma evaluate_inv (rules : list Rule) (tx : value) (out : PolicyEngine.Outcome) :
  PolicyEngine.evaluate rules tx = Ok out ->
  exists ordered,
    PolicyEngine.sorted rules = Ok ordered /\
    Permutation rules ordered /\
    no_error rules tx /\
    PolicyEngine.trace out = map (fun r => (name r, matches tx r)) ordered /\
    PolicyEngine.matched_rules out = map name (filter (matches tx) ordered) /\
    match filter (matches tx) ordered with
    | [] => PolicyEngine.decision out = VStr "allow" /\ PolicyEngine.rule out = VNone
    | _ :: _ =>
        exists w before after,
          filter (matches tx) ordered = before ++ w :: after /\
          Forall (fun r => is_decision (action r) = true) (filter (matches tx) ordered) /\
          Forall (fun r => lex_lt (weight r) (weight w)) before /\
          Forall (fun r => lex_le (weight r) (weight w)) after /\
          PolicyEngine.decision out = action w /\
          PolicyEngine.rule out = name w
    end.
Proof.
  unfold PolicyEngine.evaluate. intros H.
  destruct (PolicyEngine.sorted rules) as [ordered |] eqn:Hsort; [| discriminate].
  cbn [bind] in H. pose proof (sorted_perm _ Hsort) as Hperm.
  destruct (PolicyEngine.run tx ordered [] []) as [tm |] eqn:Hrun; [| discriminate].
  cbn [bind] in H. pose proof (run_no_error _ _ _ _ Hrun) as Hok.
  rewrite (run_spec [] [] Hok) in Hrun. injection Hrun as <-. cbn [app] in H.
  exists ordered. split; [reflexivity |]. split; [exact Hperm |].
  split; [now apply no_error_perm with ordered; [symmetry |] |].
  destruct (filter (matches tx) ordered) as [| m matched] eqn:Hm.
  - injection H as <-. now repeat split.
  - destruct (PolicyEngine.py_max (m :: matched)) as [w |] eqn:Hmax; [| discriminate].
    cbn [bind] in H. injection H as <-. cbn.
    split; [reflexivity |]. split; [reflexivity |].
    pose proof (py_max_ranked _ Hmax) as Hranked.
    destruct (@py_max_spec (m :: matched)) as [w' [before [after [Hmax' [Hs [Hb Ha]]]]]];
      [discriminate | exact Hranked |].
    rewrite Hmax in Hmax'. injection Hmax' as <-.
    exists w, before, after. now repeat split.
Qed.

Lemma is_decision_cases (a : value) :
  is_decision a = true ->
  a = VStr "allow" \/ a = VStr "block" \/ a = VStr "flag".
Proof.
  unfold is_decision. destruct a; try discriminate. cbn [Py.eq].
  destruct (String.eqb_spec s "allow") as [-> | _]; [auto |].
  destruct (String.eqb_spec s "block") as [-> | _]; [auto |].
  destruct (String.eqb_spec s "flag") as [-> | _]; [auto | discriminate].
Qed.

Lemma matched_names (tx : value) (ordered : list Rule) :
  map fst (filter snd (map (fun r => (name r, matches tx r)) ordered))
  = map name (filter (matches tx) ordered).
Proof.
  induction ordered as [| r ordered IH]; cbn [map filter snd]; [reflexivity |].
  destruct (matches tx r); cbn [map fst]; now rewrite IH.
Qed.

Lemma decision_is_one_of_three_aux (rules : list Rule) (tx : value)
    (out : PolicyEngine.Outcome) :
  PolicyEngine.evaluate rules tx = Ok out ->
  PolicyEngine.decision out = VStr "allow" \/
  PolicyEngine.decision out = VStr "block" \/
  PolicyEngine.decision out = VStr "flag".
Proof.
  intros H. destruct (evaluate_inv _ _ H) as [ordered [_ [_ [_ [_ [_ Hcase]]]]]].
  destruct (filter (matches tx) ordered) as [| m matched].
  - left. apply Hcase.
  - destruct Hcase as [w [before [after [Hs [Hranked [_ [_ [Hd _]]]]]]]].
    rewrite Hd. apply is_decision_cases.
    rewrite Forall_forall in Hranked. apply Hranked. rewrite Hs. apply in_elt.
Qed.

(** X2: in a returned outcome the trace has one entry per rule, and
    [matched_rules] lists, in trace order, the names of the entries whose
    result is true. *)
Theorem matched_rules_follow_trace (rules : list Rule) (tx : value) (out : PolicyEngine.Outcome) :
  PolicyEngine.evaluate rules tx = Ok out ->
  List.length (PolicyEngine.trace out) = List.length rules /\
  PolicyEngine.matched_rules out = map fst (filter snd (PolicyEngine.trace out)).
Proof.
  intros H. destruct (evaluate_inv _ _ H) as [ordered [_ [Hperm [_ [Ht [Hm _]]]]]].
  rewrite Ht, Hm, matched_names, length_map. split; [| reflexivity].
  symmetry. now apply Permutation_length.
Qed.

(** X3: a returned outcome names a winning rule exactly when some rule
    matched: with no matched rule the decision is "allow" and the rule is
    [None]; otherwise the rule is one of [matched_rules] and the decision
    is the action of a matched rule with that name. *)
Theorem winner_is_a_matched_rule (rules : list Rule) (tx : value) (out : PolicyEngine.Outcome) :
  PolicyEngine.evaluate rules tx = Ok out ->
  (PolicyEngine.matched_rules out = [] /\
   PolicyEngine.decision out = VStr "allow" /\ PolicyEngine.rule out = VNone) \/
  (In (PolicyEngine.rule out) (PolicyEngine.matched_rules out) /\
   exists w, In w rules /\ Node_eval (root w) tx = Ok true /\
             PolicyEngine.rule out = name w /\ PolicyEngine.decision out = action w).
Proof.
  intros H. destruct (evaluate_inv _ _ H) as [ordered [_ [Hperm [Hok [_ [Hm Hcase]]]]]].
  rewrite Hm.
  destruct (filter (matches tx) ordered) as [| m matched] eqn:Hf.
  - left. now repeat split.
  - right. destruct Hcase as [w [before [after [Hs [_ [_ [_ [Hd Hr]]]]]]]].
    assert (Hw : In w (filter (matches tx) ordered)) by (rewrite Hf, Hs; apply in_elt).
    split.
    + rewrite Hr, <- Hf. now apply in_map.
    + apply filter_In in Hw. destruct Hw as [Hw Hmw].
      assert (Hin : In w rules)
        by (eapply Permutation_in; [symmetry; exact Hperm | exact Hw]).
      exists w. repeat split; try assumption.
      destruct (Hok w Hin) as [b Hb].
      rewrite (matches_result _ _ Hb) in Hmw. now rewrite Hb, Hmw.
Qed.

(** X4: no matched rule is more severe than the decision returned; in
    particular a matched rule with action "block" makes the decision
    "block", whatever the priorities. *)
Theorem decision_is_most_severe (rules : list Rule) (tx : value)
    (out : PolicyEngine.Outcome) (r : Rule) :
  PolicyEngine.evaluate rules tx = Ok out ->
  In r rules ->
  Node_eval (root r) tx = Ok true ->
  severity (action r) <= severity (PolicyEngine.decision out) /\
  (action r = VStr "block" -> PolicyEngine.decision out = VStr "block").
Proof.
  intros H Hr Htrue.
  assert (Hsev : severity (action r) <= severity (PolicyEngine.decision out)).
  { destruct (evaluate_inv _ _ H) as [ordered [_ [Hperm [_ [_ [_ Hcase]]]]]].
    assert (Hin : In r (filter (matches tx) ordered)).
    { apply filter_In. split; [| now apply matches_result].
      eapply Permutation_in; [exact Hperm | exact Hr]. }
    destruct (filter (matches tx) ordered) as [| m matched]; [contradiction |].
    destruct Hcase as [w [before [after [Hs [_ [Hb [Ha [Hd _]]]]]]]].
    rewrite Hd. rewrite Hs in Hin. apply in_app_or in Hin.
    rewrite Forall_forall in Hb, Ha.
    destruct Hin as [Hin | [<- | Hin]].
    - apply Hb in Hin. unfold lex_lt, weight in Hin. cbn [fst snd] in Hin. lia.
    - lia.
    - apply Ha in Hin. destruct Hin as [Hin | Hin].
      + unfold lex_lt, weight in Hin. cbn [fst snd] in Hin. lia.
      + unfold weight in Hin. injection Hin as Hin _. lia. }
  split; [exact Hsev |].
  intros Hblock. rewrite Hblock in Hsev.
  destruct (decision_is_one_of_three_aux _ _ H) as [E | [E | E]];
    rewrite E in Hsev |- *; cbn in Hsev; try lia. reflexivity.
Qed.

(** X1: whatever the rules and the transaction, a decision that
    [evaluate] returns is "allow", "block" or "flag". *)
Theorem decision_is_one_of_three (rules : list Rule) (tx : value) (out : PolicyEngine.Outcome) :
  PolicyEngine.evaluate rules tx = Ok out ->
  In (PolicyEngine.decision out) [VStr "allow"; VStr "block"; VStr "flag"].
Proof.
  intros H. cbn [In].
  destruct (decision_is_one_of_three_aux _ _ H) as [E | [E | E]]; rewrite E; auto.
Qed.

Lemma decision_is_one_of_three_witness :
  PolicyEngine.evaluate Demo.rules (Demo.tx false 5000) = Ok Sample.blocked /\
  In (PolicyEngine.decision Sample.blocked) [VStr "allow"; VStr "block"; VStr "flag"].
Proof.
  split; [reflexivity |].
  exact (@decision_is_one_of_three Demo.rules (Demo.tx false 5000) Sample.blocked eq_refl).
Defined.

Lemma matched_rules_follow_trace_witness :
  PolicyEngine.evaluate Demo.rules (Demo.tx false 5000) = Ok Sample.blocked /\
  List.length (PolicyEngine.trace Sample.blocked) = List.length Demo.rules /\
  PolicyEngine.matched_rules Sample.blocked
  = map fst (filter snd (PolicyEngine.trace Sample.blocked)).
Proof.
  split; [reflexivity |].
  exact (@matched_rules_follow_trace Demo.rules (Demo.tx false 5000) Sample.blocked eq_refl).
Defined.

Lemma winner_is_a_matched_rule_witness :
  PolicyEngine.evaluate Demo.rules (Demo.tx false 5000) = Ok Sample.blocked /\
  ((PolicyEngine.matched_rules Sample.blocked = [] /\
    PolicyEngine.decision Sample.blocked = VStr "allow" /\
    PolicyEngine.rule Sample.blocked = VNone) \/
   (In (PolicyEngine.rule Sample.blocked) (PolicyEngine.matched_rules Sample.blocked) /\
    exists w, In w Demo.rules /\ Node_eval (root w) (Demo.tx false 5000) = Ok true /\
              PolicyEngine.rule Sample.blocked = name w /\
              PolicyEngine.decision Sample.blocked = action w)).
Proof.
  split; [reflexivity |].
  exact (@winner_is_a_matched_rule Demo.rules (Demo.tx false 5000) Sample.blocked eq_refl).
Defined.

Lemma decision_is_most_severe_witness :
  PolicyEngine.evaluate [Demo.loud_flag; Demo.quiet_block] (Demo.tx true 15000)
  = Ok {| PolicyEngine.decision := VStr "block";
          PolicyEngine.rule := VStr "quiet_block";
          PolicyEngine.matched_rules := [VStr "loud_flag"; VStr "quiet_block"];
          PolicyEngine.trace := [(VStr "loud_flag", true); (VStr "quiet_block", true)] |} /\
  In Demo.loud_flag [Demo.loud_flag; Demo.quiet_block] /\
  Node_eval (root Demo.loud_flag) (Demo.tx true 15000) = Ok true /\
  severity (action Demo.loud_flag) <= severity (VStr "block") /\
  (action Demo.loud_flag = VStr "block" -> VStr "block" = VStr "block").
Proof.
  split; [reflexivity |]. split; [now left |]. split; [reflexivity |].
  exact (@decision_is_most_severe [Demo.loud_flag; Demo.quiet_block] (Demo.tx true 15000)
           _ Demo.loud_flag eq_refl (or_introl eq_refl) eq_refl).
Defined.

(** ** The order of the rules in the rule set *)

Lemma rule_le_antisym (a b : Rule) :
  rule_le a b -> rule_le b a -> name_str a = name_str b.
Proof.
  intros [Hab | [Hp' Lab]] [Hba | [Hp Lba]]; try lia.
  now apply String.leb_antisym.
Qed.

Lemma str_named_eq (rules : list Rule) (a b : Rule) :
  Forall str_named rules -> NoDup (map name rules) ->
  In a rules -> In b rules -> name_str a = name_str b -> a = b.
Proof.
  intros Hnamed Hnodup Ha Hb Hn.
  apply (NoDup_map_eq name rules); try assumption.
  rewrite Forall_forall in Hnamed.
  destruct (Hnamed a Ha) as [sa Ea]. destruct (Hnamed b Hb) as [sb Eb].
  unfold name_str in Hn. rewrite Ea, Eb in Hn. congruence.
Qed.

(** A rule set with unique string names has one sorted arrangement. *)
Lemma sorted_unique (l1 l2 : list Rule) :
  Forall str_named l1 -> NoDup (map name l1) ->
  StronglySorted rule_le l1 -> StronglySorted rule_le l2 ->
  Permutation l1 l2 -> l1 = l2.
Proof.
  revert l2.
  induction l1 as [| a l1 IH]; intros l2 Hnamed Hnodup Hs1 Hs2 Hperm.
  - now apply Permutation_nil in Hperm.
  - destruct l2 as [| b l2]; [now apply Permutation_sym, Permutation_nil in Hperm |].
    inversion Hs1 as [| ? ? Hs1' Ha]; subst.
    inversion Hs2 as [| ? ? Hs2' Hb]; subst.
    rewrite Forall_forall in Ha, Hb.
    assert (Hab : a = b).
    { assert (Hina : In a (b :: l2))
        by (eapply Permutation_in; [exact Hperm | now left]).
      assert (Hinb : In b (a :: l1))
        by (eapply Permutation_in; [symmetry; exact Hperm | now left]).
      destruct Hina as [-> | Hina]; [reflexivity |].
      destruct Hinb as [-> | Hinb]; [reflexivity |].
      apply (@str_named_eq (a :: l1)); try assumption; [now left | now right |].
      apply rule_le_antisym; [now apply Ha | now apply Hb]. }
    subst b. f_equal.
    inversion Hnamed; subst. inversion Hnodup; subst.
    apply IH; try assumption. now apply Permutation_cons_inv in Hperm.
Qed.

Lemma sorted_of_permutation (rules rules' : list Rule) :
  Forall str_named rules -> NoDup (map name rules) ->
  Permutation rules rules' ->
  PolicyEngine.sorted rules = PolicyEngine.sorted rules'.
Proof.
  intros Hnamed Hnodup Hperm.
  assert (Hnamed' : Forall str_named rules') by now apply (Permutation_Forall Hperm).
  destruct (sorted_spec Hnamed) as [o [Ho [Hp Hs]]].
  destruct (sorted_spec Hnamed') as [o' [Ho' [Hp' Hs']]].
  rewrite Ho, Ho'. f_equal. apply sorted_unique; try assumption.
  - now apply (Permutation_Forall Hp).
  - eapply Permutation_NoDup; [apply Permutation_map; exact Hp | exact Hnodup].
  - now rewrite <- Hp, Hperm.
Qed.

(** X5: for a rule set whose names are distinct strings, the outcome of
    [evaluate] (decision, rule, matched rules and trace, or the error
    raised) does not depend on the order in which the rules are listed. *)
Theorem evaluate_ignores_listing_order (rules rules' : list Rule) (tx : value) :
  Forall str_named rules ->
  NoDup (map name rules) ->
  Permutation rules rules' ->
  PolicyEngine.evaluate rules tx = PolicyEngine.evaluate rules' tx.
Proof.
  intros Hnamed Hnodup Hperm. unfold PolicyEngine.evaluate.
  now rewrite (sorted_of_permutation Hnamed Hnodup Hperm).
Qed.

Lemma evaluate_ignores_listing_order_witness :
  Forall str_named [Demo.loud_flag; Demo.quiet_block] /\
  NoDup (map name [Demo.loud_flag; Demo.quiet_block]) /\
  Permutation [Demo.loud_flag; Demo.quiet_block] [Demo.quiet_block; Demo.loud_flag] /\
  PolicyEngine.evaluate [Demo.loud_flag; Demo.quiet_block] (Demo.tx true 15000)
  = PolicyEngine.evaluate [Demo.quiet_block; Demo.loud_flag] (Demo.tx true 15000).
Proof.
  assert (H1 : Forall str_named [Demo.loud_flag; Demo.quiet_block]).
  { repeat constructor; eexists; reflexivity. }
  assert (H2 : NoDup (map name [Demo.loud_flag; Demo.quiet_block])).
  { repeat constructor; cbn; intuition discriminate. }
  assert (H3 : Permutation [Demo.loud_flag; Demo.quiet_block]
                           [Demo.quiet_block; Demo.loud_flag]) by apply perm_swap.
  split; [exact H1 |]. split; [exact H2 |]. split; [exact H3 |].
  exact (@evaluate_ignores_listing_order _ _ (Demo.tx true 15000) H1 H2 H3).
Defined.

(** The matched rules the loop collects do not depend on the trace it
    started from. *)
Lemma run_matched_any_trace (tx : value) (l : list Rule)
    (t t' : list (value * bool)) (m : list Rule) :
  (tm <- PolicyEngine.run tx l t m ;; Ok (snd tm)) =
  (tm <- PolicyEngine.run tx l t' m ;; Ok (snd tm)).
Proof.
  revert t t' m.
  induction l as [| r l IH]; intros t t' m; cbn [PolicyEngine.run]; [reflexivity |].
  destruct (Node_eval (root r) tx) as [b |]; [| reflexivity].
  cbn [bind]. apply IH.
Qed.

Lemma run_skip_unmatched (tx : value) (l1 l2 : list Rule) (r : Rule)
    (t t' : list (value * bool)) (m : list Rule) :
  Node_eval (root r) tx = Ok false ->
  (tm <- PolicyEngine.run tx (l1 ++ r :: l2) t m ;; Ok (snd tm)) =
  (tm <- PolicyEngine.run tx (l1 ++ l2) t' m ;; Ok (snd tm)).
Proof.
  intros Hr. revert t t' m.
  induction l1 as [| x l1 IH]; intros t t' m; cbn [app PolicyEngine.run].
  - rewrite Hr. cbn [bind]. apply run_matched_any_trace.
  - destruct (Node_eval (root x) tx) as [b |]; [| reflexivity].
    cbn [bind]. apply IH.
Qed.

(** The verdict needs the matched rules only. *)
Lemma verdict_evaluate (rules : list Rule) (tx : value) :
  verdict (PolicyEngine.evaluate rules tx) =
  (ordered <- PolicyEngine.sorted rules ;;
   matched <- (tm <- PolicyEngine.run tx ordered [] [] ;; Ok (snd tm)) ;;
   match matched with
   | [] => Ok (VStr "allow", VNone, [])
   | _ :: _ =>
       chosen <- PolicyEngine.py_max matched ;;
       Ok (action chosen, name chosen, map name matched)
   end).
Proof.
  unfold verdict, PolicyEngine.evaluate.
  destruct (PolicyEngine.sorted rules) as [ordered |]; [| reflexivity].
  cbn [bind].
  destruct (PolicyEngine.run tx ordered [] []) as [[t m] |]; [| reflexivity].
  cbn [bind snd]. destruct m as [| x m]; [reflexivity |].
  destruct (PolicyEngine.py_max (x :: m)); reflexivity.
Qed.

Lemma StronglySorted_remove {A : Type} (R : A -> A -> Prop) (l1 l2 : list A) (x : A) :
  StronglySorted R (l1 ++ x :: l2) -> StronglySorted R (l1 ++ l2).
Proof.
  induction l1 as [| y l1 IH]; cbn [app]; intros H; inversion H; subst; [assumption |].
  constructor; [now apply IH |].
  rewrite Forall_forall in *. intros z Hz. match goal with H : forall _, In _ _ -> R y _ |- _ => apply H end.
  apply in_app_or in Hz. apply in_or_app. destruct Hz; [now left | right; now right].
Qed.

(** X6: in a rule set whose names are distinct strings, a rule whose root
    evaluates to false has no effect on the decision, the winning rule,
    the matched rules or the error raised: only the trace shows it. *)
Theorem unmatched_rule_is_irrelevant (r : Rule) (rules : list Rule) (tx : value) :
  Forall str_named (r :: rules) ->
  NoDup (map name (r :: rules)) ->
  Node_eval (root r) tx = Ok false ->
  verdict (PolicyEngine.evaluate (r :: rules) tx) =
  verdict (PolicyEngine.evaluate rules tx).
Proof.
  intros Hnamed Hnodup Hr.
  inversion Hnamed as [| ? ? _ Hnamed']; subst.
  assert (Hnodup' : NoDup (map name rules)) by now inversion Hnodup.
  destruct (sorted_spec Hnamed) as [o' [Ho' [Hp' Hs']]].
  destruct (sorted_spec Hnamed') as [o [Ho [Hp Hs]]].
  assert (Hin : In r o') by (eapply Permutation_in; [exact Hp' | now left]).
  destruct (in_split _ _ Hin) as [l1 [l2 ->]].
  assert (Hperm : Permutation rules (l1 ++ l2)).
  { apply Permutation_cons_app_inv with r. exact Hp'. }
  assert (Heq : o = l1 ++ l2).
  { apply sorted_unique.
    - now apply (Permutation_Forall Hp).
    - eapply Permutation_NoDup; [apply Permutation_map; exact Hp | exact Hnodup'].
    - exact Hs.
    - now apply StronglySorted_remove in Hs'.
    - now rewrite <- Hp. }
  rewrite !verdict_evaluate, Ho', Ho, Heq. cbn [bind].
  now rewrite (@run_skip_unmatched tx l1 l2 r [] [] [] Hr).
Qed.

Lemma unmatched_rule_is_irrelevant_witness :
  Forall str_named (Sample.broken :: [Demo.loud_flag; Demo.quiet_block]) /\
  NoDup (map name (Sample.broken :: [Demo.loud_flag; Demo.quiet_block])) /\
  Node_eval (root Sample.broken) (VDict [("currency", VStr "EUR")]) = Ok false /\
  verdict (PolicyEngine.evaluate (Sample.broken :: [Demo.loud_flag; Demo.quiet_block])
                                 (VDict [("currency", VStr "EUR")])) =
  verdict (PolicyEngine.evaluate [Demo.loud_flag; Demo.quiet_block]
                                 (VDict [("currency", VStr "EUR")])).
Proof.
  assert (H1 : Forall str_named (Sample.broken :: [Demo.loud_flag; Demo.quiet_block])).
  { repeat constructor; eexists; reflexivity. }
  assert (H2 : NoDup (map name (Sample.broken :: [Demo.loud_flag; Demo.quiet_block]))).
  { repeat constructor; cbn; intuition discriminate. }
  split; [exact H1 |]. split; [exact H2 |]. split; [reflexivity |].
  exact (@unmatched_rule_is_irrelevant _ _ (VDict [("currency", VStr "EUR")]) H1 H2 eq_refl).
Defined.

(** * The enforcement endpoint *)

Lemma bump_present (key : string) (counters : list (string * Z)) :
  In key (map fst counters) -> exists counters', Server.bump key counters = Ok counters'.
Proof.
  induction counters as [| [k n] rest IH]; cbn [map fst In Server.bump]; [contradiction |].
  intros H. destruct (String.eqb_spec k key) as [-> | Hne]; [eauto |].
  destruct H as [H | H]; [contradiction |].
  destruct (IH H) as [rest' ->]. cbn [bind]. eauto.
Qed.

Lemma bump_count (key : string) (counters counters' : list (string * Z)) :
  Server.bump key counters = Ok counters' ->
  map fst counters' = map fst counters /\
  Server.count key counters' = Server.count key counters + 1 /\
  forall k, k <> key -> Server.count k counters' = Server.count k counters.
Proof.
  revert counters'.
  induction counters as [| [k n] rest IH]; intros counters' H;
    cbn [Server.bump] in H; [discriminate |].
  destruct (String.eqb_spec k key) as [-> | Hne].
  - injection H as <-. cbn [map fst Server.count]. rewrite String.eqb_refl.
    repeat split. intros k Hk.
    destruct (String.eqb_spec key k) as [-> | _]; [contradiction | reflexivity].
  - destruct (Server.bump key rest) as [rest' |]; [| discriminate].
    cbn [bind] in H. injection H as <-.
    destruct (IH rest' eq_refl) as [Hkeys [Hsame Hother]].
    cbn [map fst Server.count]. rewrite Hkeys.
    destruct (String.eqb_spec k key) as [E | _]; [contradiction |].
    repeat split; try assumption.
    intros k' Hk'. destruct (String.eqb k k'); [reflexivity | now apply Hother].
Qed.

(** The two ways [enforce_policy] ends when the three counters exist. *)
Lemma enforce_policy_cases (engine : list Rule) (stats : Server.Stats)
    (tx : Server.TransactionRequest) :
  In "BLOCK" (map fst (Server.decisions stats)) ->
  In "FLAG" (map fst (Server.decisions stats)) ->
  In "ALLOW" (map fst (Server.decisions stats)) ->
  (exists e,
      PolicyEngine.evaluate engine (Server.dict tx) = Err e /\
      Server.enforce_policy engine stats tx = (stats, Server.Http500 e)) \/
  (exists out key counters,
      PolicyEngine.evaluate engine (Server.dict tx) = Ok out /\
      Server.py_upper (PolicyEngine.decision out) = Ok key /\
      In key ["ALLOW"; "BLOCK"; "FLAG"] /\
      Server.bump key (Server.decisions stats) = Ok counters /\
      Server.enforce_policy engine stats tx =
      ({| Server.total_processed := Server.total_processed stats + 1;
          Server.decisions := counters |},
       Server.Enforced key (PolicyEngine.rule out)
                       ("trace_" ++ Server.id tx ++ "_secure"))).
Proof.
  intros Hb Hf Ha. unfold Server.enforce_policy.
  destruct (PolicyEngine.evaluate engine (Server.dict tx)) as [out | e] eqn:He.
  - right.
    assert (Hkey : exists key, Server.py_upper (PolicyEngine.decision out) = Ok key /\
                               In key ["ALLOW"; "BLOCK"; "FLAG"]).
    { destruct (decision_is_one_of_three_aux _ _ He) as [E | [E | E]]; rewrite E;
        eexists; (split; [reflexivity |]); cbn; auto. }
    destruct Hkey as [key [Hup Hkey]].
    assert (Hbump : exists counters, Server.bump key (Server.decisions stats) = Ok counters).
    { apply bump_present. cbn [In] in Hkey.
      destruct Hkey as [<- | [<- | [<- | []]]]; assumption. }
    destruct Hbump as [counters Hbump].
    exists out, key, counters. rewrite Hup. cbn [Server.decisions Server.total_processed].
    rewrite Hbump. now repeat split.
  - left. exists e. now split.
Qed.

(** X7: [enforce_policy] keeps [STATS] consistent: when the three
    counters exist and add up to [total_processed] before the call, they
    do so after it, whether the call answers or fails. *)
Theorem enforce_policy_keeps_stats_consistent (engine : list Rule)
    (stats : Server.Stats) (tx : Server.TransactionRequest) :
  Server.consistent stats ->
  Server.consistent (fst (Server.enforce_policy engine stats tx)).
Proof.
  intros [Hb [Hf [Ha Htotal]]].
  destruct (@enforce_policy_cases engine stats tx Hb Hf Ha)
    as [[e [_ ->]] | [out [key [counters [_ [_ [Hkey [Hbump ->]]]]]]]].
  - now repeat split.
  - cbn [fst]. destruct (bump_count _ _ Hbump) as [Hkeys [Hsame Hother]].
    unfold Server.consistent. cbn [Server.decisions Server.total_processed].
    rewrite Hkeys. repeat split; try assumption.
    cbn [In] in Hkey.
    destruct Hkey as [<- | [<- | [<- | []]]];
      rewrite Hsame, !Hother by discriminate; lia.
Qed.

Lemma enforce_policy_keeps_stats_consistent_witness :
  Server.consistent Server.STATS /\
  Server.consistent (fst (Server.enforce_policy Demo.rules Server.STATS
                                                (Sample.request false 5000))).
Proof.
  assert (H : Server.consistent Server.STATS).
  { unfold Server.consistent. cbn. intuition. }
  split; [exact H |].
  exact (@enforce_policy_keeps_stats_consistent Demo.rules Server.STATS
           (Sample.request false 5000) H).
Defined.

(** X8: when the three counters exist, a call of [enforce_policy] that
    answers reports the decision of [evaluate] in upper case, which is
    ALLOW, BLOCK or FLAG, together with the rule of [evaluate]; it adds
    one to [total_processed] and one to the counter of that decision, and
    leaves the other counters as they were. *)
Theorem enforce_policy_counts_the_decision (engine : list Rule)
    (stats stats' : Server.Stats) (tx : Server.TransactionRequest)
    (decision : string) (rule_applied : value) (trace_id : string) :
  In "BLOCK" (map fst (Server.decisions stats)) ->
  In "FLAG" (map fst (Server.decisions stats)) ->
  In "ALLOW" (map fst (Server.decisions stats)) ->
  Server.enforce_policy engine stats tx
  = (stats', Server.Enforced decision rule_applied trace_id) ->
  (exists out,
      PolicyEngine.evaluate engine (Server.dict tx) = Ok out /\
      Server.py_upper (PolicyEngine.decision out) = Ok decision /\
      rule_applied = PolicyEngine.rule out) /\
  In decision ["ALLOW"; "BLOCK"; "FLAG"] /\
  Server.total_processed stats' = Server.total_processed stats + 1 /\
  Server.count decision (Server.decisions stats')
  = Server.count decision (Server.decisions stats) + 1 /\
  forall k, k <> decision ->
            Server.count k (Server.decisions stats') = Server.count k (Server.decisions stats).
Proof.
  intros Hb Hf Ha H.
  destruct (@enforce_policy_cases engine stats tx Hb Hf Ha)
    as [[e [_ E]] | [out [key [counters [He [Hup [Hkey [Hbump E]]]]]]]];
    rewrite E in H; [discriminate |].
  injection H as <- <- <- <-.
  destruct (bump_count _ _ Hbump) as [_ [Hsame Hother]].
  cbn [Server.decisions Server.total_processed].
  split; [exists out; now repeat split |]. now repeat split.
Qed.

Lemma enforce_policy_counts_the_decision_witness :
  In "BLOCK" (map fst (Server.decisions Server.STATS)) /\
  In "FLAG" (map fst (Server.decisions Server.STATS)) /\
  In "ALLOW" (map fst (Server.decisions Server.STATS)) /\
  Server.enforce_policy Demo.rules Server.STATS (Sample.request false 5000)
  = ({| Server.total_processed := 1;
        Server.decisions := [("BLOCK", 1); ("FLAG", 0); ("ALLOW", 0)] |},
     Server.Enforced "BLOCK" (VStr "block_unhosted_wallets") "trace_tx_1_secure") /\
  In "BLOCK" ["ALLOW"; "BLOCK"; "FLAG"] /\
  Server.count "BLOCK" [("BLOCK", 1); ("FLAG", 0); ("ALLOW", 0)]
  = Server.count "BLOCK" (Server.decisions Server.STATS) + 1.
Proof.
  assert (Hb : In "BLOCK" (map fst (Server.decisions Server.STATS))) by (cbn; auto).
  assert (Hf : In "FLAG" (map fst (Server.decisions Server.STATS))) by (cbn; auto).
  assert (Ha : In "ALLOW" (map fst (Server.decisions Server.STATS))) by (cbn; auto).
  assert (He : Server.enforce_policy Demo.rules Server.STATS (Sample.request false 5000)
               = ({| Server.total_processed := 1;
                     Server.decisions := [("BLOCK", 1); ("FLAG", 0); ("ALLOW", 0)] |},
                  Server.Enforced "BLOCK" (VStr "block_unhosted_wallets")
                                  "trace_tx_1_secure")) by reflexivity.
  split; [exact Hb |]. split; [exact Hf |]. split; [exact Ha |]. split; [exact He |].
  pose proof (@enforce_policy_counts_the_decision _ _ _ _ _ _ _ Hb Hf Ha He)
    as [_ [Hin [_ [Hcount _]]]].
  split; [exact Hin | exact Hcount].
Defined.

(** The handler itself ends in its [except] branch exactly when
    [evaluate] raises, and then [STATS] is as before. *)
Lemma handler_fails_with_evaluate (engine : list Rule)
    (stats : Server.Stats) (tx : Server.TransactionRequest) :
  In "BLOCK" (map fst (Server.decisions stats)) ->
  In "FLAG" (map fst (Server.decisions stats)) ->
  In "ALLOW" (map fst (Server.decisions stats)) ->
  match PolicyEngine.evaluate engine (Server.dict tx) with
  | Err e => Server.enforce_policy engine stats tx = (stats, Server.Http500 e)
  | Ok out =>
      exists stats' key,
        Server.enforce_policy engine stats tx
        = (stats', Server.Enforced key (PolicyEngine.rule out)
                                   ("trace_" ++ Server.id tx ++ "_secure"))
  end.
Proof.
  intros Hb Hf Ha.
  destruct (@enforce_policy_cases engine stats tx Hb Hf Ha)
    as [[e [He E]] | [out [key [counters [He [_ [_ [_ E]]]]]]]]; rewrite He.
  - exact E.
  - eauto.
Qed.

(** The rule of a returned outcome is [None] or the name of a rule. *)
Lemma rule_is_None_or_a_name (rules : list Rule) (tx : value) (out : PolicyEngine.Outcome) :
  PolicyEngine.evaluate rules tx = Ok out ->
  PolicyEngine.rule out = VNone \/
  exists w, In w rules /\ PolicyEngine.rule out = name w.
Proof.
  intros H. destruct (evaluate_inv _ _ H) as [ordered [_ [Hperm [_ [_ [_ Hcase]]]]]].
  destruct (filter (matches tx) ordered) as [| m matched] eqn:Hf.
  - left. apply Hcase.
  - right. destruct Hcase as [w [before [after [Hs [_ [_ [_ [_ Hr]]]]]]]].
    exists w. split; [| exact Hr].
    assert (Hw : In w (filter (matches tx) ordered)) by (rewrite Hf, Hs; apply in_elt).
    apply filter_In in Hw. destruct Hw as [Hw _].
    eapply Permutation_in; [symmetry; exact Hperm | exact Hw].
Qed.

(** X9: for an engine whose rule names are strs, and when the three
    counters exist, the endpoint [/enforce] (the handler followed by the
    validation of its reply) answers HTTP 500 exactly when [evaluate]
    raises, with that error and with [STATS] untouched; otherwise it
    answers a [PolicyResponse].  This holds however pydantic treats the
    values that are not strs. *)
Theorem endpoint_fails_only_with_evaluate (str_of_other : value -> option string)
    (engine : list Rule) (stats : Server.Stats) (tx : Server.TransactionRequest) :
  Forall str_named engine ->
  In "BLOCK" (map fst (Server.decisions stats)) ->
  In "FLAG" (map fst (Server.decisions stats)) ->
  In "ALLOW" (map fst (Server.decisions stats)) ->
  match PolicyEngine.evaluate engine (Server.dict tx) with
  | Err e =>
      Server.enforce_endpoint str_of_other engine stats tx
      = (stats, Server.Response500 (Some e))
  | Ok out =>
      exists stats' decision rule_applied timestamp trace_id,
        Server.enforce_endpoint str_of_other engine stats tx
        = (stats', Server.Response200 decision rule_applied timestamp trace_id)
  end.
Proof.
  intros Hnamed Hb Hf Ha.
  pose proof (@handler_fails_with_evaluate engine stats tx Hb Hf Ha) as H.
  unfold Server.enforce_endpoint.
  destruct (PolicyEngine.evaluate engine (Server.dict tx)) as [out | e] eqn:He.
  - destruct H as [stats' [key ->]].
    assert (Hrule : exists r, Server.validate_rule_applied str_of_other
                                (PolicyEngine.rule out) = Some r).
    { destruct (rule_is_None_or_a_name _ _ He) as [-> | [w [Hw ->]]]; [now eexists |].
      rewrite Forall_forall in Hnamed. destruct (Hnamed w Hw) as [s ->]. now eexists. }
    destruct Hrule as [r ->]. eauto 6.
  - now rewrite H.
Qed.

Lemma endpoint_fails_only_with_evaluate_witness :
  Forall str_named [Sample.broken] /\
  In "BLOCK" (map fst (Server.decisions Server.STATS)) /\
  In "FLAG" (map fst (Server.decisions Server.STATS)) /\
  In "ALLOW" (map fst (Server.decisions Server.STATS)) /\
  PolicyEngine.evaluate [Sample.broken] (Server.dict (Sample.request true 5000))
  = Err TypeError /\
  Server.enforce_endpoint (fun _ => None) [Sample.broken] Server.STATS
                          (Sample.request true 5000)
  = (Server.STATS, Server.Response500 (Some TypeError)).
Proof.
  assert (Hn : Forall str_named [Sample.broken]).
  { repeat constructor; eexists; reflexivity. }
  assert (Hb : In "BLOCK" (map fst (Server.decisions Server.STATS))) by (cbn; auto).
  assert (Hf : In "FLAG" (map fst (Server.decisions Server.STATS))) by (cbn; auto).
  assert (Ha : In "ALLOW" (map fst (Server.decisions Server.STATS))) by (cbn; auto).
  split; [exact Hn |]. split; [exact Hb |]. split; [exact Hf |]. split; [exact Ha |].
  split; [reflexivity |].
  exact (@endpoint_fails_only_with_evaluate (fun _ => None) [Sample.broken] Server.STATS
           (Sample.request true 5000) Hn Hb Hf Ha).
Defined.

(** X23: a winning rule whose name is neither [None] nor a str, and that
    the validation of the reply rejects, makes the endpoint answer HTTP
    500 although [evaluate] returned, and the call has been counted in
    [STATS]. *)
Theorem endpoint_counts_a_rejected_reply (str_of_other : value -> option string)
    (engine : list Rule) (stats : Server.Stats) (tx : Server.TransactionRequest)
    (out : PolicyEngine.Outcome) :
  In "BLOCK" (map fst (Server.decisions stats)) ->
  In "FLAG" (map fst (Server.decisions stats)) ->
  In "ALLOW" (map fst (Server.decisions stats)) ->
  PolicyEngine.evaluate engine (Server.dict tx) = Ok out ->
  Server.validate_rule_applied str_of_other (PolicyEngine.rule out) = None ->
  snd (Server.enforce_endpoint str_of_other engine stats tx) = Server.Response500 None /\
  Server.total_processed (fst (Server.enforce_endpoint str_of_other engine stats tx))
  = Server.total_processed stats + 1.
Proof.
  intros Hb Hf Ha He Hrej.
  destruct (@enforce_policy_cases engine stats tx Hb Hf Ha)
    as [[e [He' _]] | [out' [key [counters [He' [_ [_ [_ E]]]]]]]]; [congruence |].
  rewrite He in He'. injection He' as <-.
  unfold Server.enforce_endpoint. rewrite E, Hrej. now split.
Qed.

Lemma endpoint_counts_a_rejected_reply_witness :
  In "BLOCK" (map fst (Server.decisions Server.STATS)) /\
  In "FLAG" (map fst (Server.decisions Server.STATS)) /\
  In "ALLOW" (map fst (Server.decisions Server.STATS)) /\
  PolicyEngine.evaluate [Sample.numbered] (Server.dict (Sample.request true 5000))
  = Ok {| PolicyEngine.decision := VStr "flag";
          PolicyEngine.rule := VInt 5;
          PolicyEngine.matched_rules := [VInt 5];
          PolicyEngine.trace := [(VInt 5, true)] |} /\
  Server.validate_rule_applied (fun _ => None) (VInt 5) = None /\
  snd (Server.enforce_endpoint (fun _ => None) [Sample.numbered] Server.STATS
                               (Sample.request true 5000))
  = Server.Response500 None /\
  Server.total_processed
    (fst (Server.enforce_endpoint (fun _ => None) [Sample.numbered] Server.STATS
                                  (Sample.request true 5000)))
  = Server.total_processed Server.STATS + 1.
Proof.
  assert (Hb : In "BLOCK" (map fst (Server.decisions Server.STATS))) by (cbn; auto).
  assert (Hf : In "FLAG" (map fst (Server.decisions Server.STATS))) by (cbn; auto).
  assert (Ha : In "ALLOW" (map fst (Server.decisions Server.STATS))) by (cbn; auto).
  split; [exact Hb |]. split; [exact Hf |]. split; [exact Ha |].
  split; [reflexivity |]. split; [reflexivity |].
  exact (@endpoint_counts_a_rejected_reply (fun _ => None) [Sample.numbered] Server.STATS
           (Sample.request true 5000) _ Hb Hf Ha eq_refl eq_refl).
Defined.

(** * Further properties of the conditions *)

(** ** Composites *)

(** X10: when no child raises, [all] is the conjunction and [any] the
    disjunction of the results of the children. *)
Theorem composite_is_conjunction_or_disjunction (cs : list Node) (tx : value) :
  (forall c, In c cs -> exists b, Node_eval c tx = Ok b) ->
  Node_eval (CompositeCondition "all" cs) tx = Ok (forallb (holds tx) cs) /\
  Node_eval (CompositeCondition "any" cs) tx = Ok (existsb (holds tx) cs).
Proof.
  induction cs as [| c cs IH]; intros Hok; [split; reflexivity |].
  destruct IH as [IHall IHany]; [intros c' Hc'; apply Hok; now right |].
  destruct (Hok c (or_introl eq_refl)) as [b Hb].
  rewrite all_cons, any_cons, IHall, IHany. cbn [forallb existsb].
  assert (Hc : holds tx c = b) by (unfold holds; rewrite Hb; now destruct b).
  rewrite Hc, Hb. cbn [bind]. now destruct b.
Qed.

Lemma composite_is_conjunction_or_disjunction_witness :
  (forall c, In c [Condition (VStr "amount") (VStr "gt") (VInt 100000);
                   Condition (VStr "currency") (VStr "eq") (VStr "EUR")] ->
             exists b, Node_eval c (Demo.tx true 15000) = Ok b) /\
  Node_eval (CompositeCondition "all"
               [Condition (VStr "amount") (VStr "gt") (VInt 100000);
                Condition (VStr "currency") (VStr "eq") (VStr "EUR")])
            (Demo.tx true 15000) = Ok false /\
  Node_eval (CompositeCondition "any"
               [Condition (VStr "amount") (VStr "gt") (VInt 100000);
                Condition (VStr "currency") (VStr "eq") (VStr "EUR")])
            (Demo.tx true 15000) = Ok true.
Proof.
  assert (H : forall c, In c [Condition (VStr "amount") (VStr "gt") (VInt 100000);
                              Condition (VStr "currency") (VStr "eq") (VStr "EUR")] ->
                        exists b, Node_eval c (Demo.tx true 15000) = Ok b).
  { intros c [<- | [<- | []]]; eexists; reflexivity. }
  split; [exact H |].
  exact (@composite_is_conjunction_or_disjunction _ (Demo.tx true 15000) H).
Defined.

(** X11: a composite is decided by its first child that does not return
    the neutral value (true for [all], false for [any]): it returns what
    that child returns or raises what it raises, and the children after it
    are not evaluated, so an error among them is not seen. *)
Theorem composite_stops_at_first_decisive_child
    (before after : list Node) (c : Node) (tx : value) :
  (Forall (fun n => Node_eval n tx = Ok true) before ->
   Node_eval c tx <> Ok true ->
   Node_eval (CompositeCondition "all" (before ++ c :: after)) tx = Node_eval c tx) /\
  (Forall (fun n => Node_eval n tx = Ok false) before ->
   Node_eval c tx <> Ok false ->
   Node_eval (CompositeCondition "any" (before ++ c :: after)) tx = Node_eval c tx).
Proof.
  split; intros Hbefore Hc.
  - induction Hbefore as [| n before Hn _ IH]; cbn [app]; rewrite all_cons.
    + destruct (Node_eval c tx) as [[|] |]; [congruence | reflexivity | reflexivity].
    + rewrite Hn. cbn [bind]. exact IH.
  - induction Hbefore as [| n before Hn _ IH]; cbn [app]; rewrite any_cons.
    + destruct (Node_eval c tx) as [[|] |]; [reflexivity | congruence | reflexivity].
    + rewrite Hn. cbn [bind]. exact IH.
Qed.

Lemma composite_stops_at_first_decisive_child_witness :
  Forall (fun n => Node_eval n (Demo.tx true 15000) = Ok true)
         [Condition (VStr "currency") (VStr "eq") (VStr "EUR")] /\
  Node_eval (Condition (VStr "amount") (VStr "gt") (VInt 100000)) (Demo.tx true 15000)
  <> Ok true /\
  Node_eval (CompositeCondition "all"
               ([Condition (VStr "currency") (VStr "eq") (VStr "EUR")]
                ++ Condition (VStr "amount") (VStr "gt") (VInt 100000)
                :: [Condition (VStr "amount") (VStr "gt") (VStr "high")]))
            (Demo.tx true 15000)
  = Node_eval (Condition (VStr "amount") (VStr "gt") (VInt 100000)) (Demo.tx true 15000).
Proof.
  assert (H1 : Forall (fun n => Node_eval n (Demo.tx true 15000) = Ok true)
                      [Condition (VStr "currency") (VStr "eq") (VStr "EUR")]).
  { repeat constructor. }
  assert (H2 : Node_eval (Condition (VStr "amount") (VStr "gt") (VInt 100000))
                         (Demo.tx true 15000) <> Ok true) by discriminate.
  split; [exact H1 |]. split; [exact H2 |].
  exact (proj1 (composite_stops_at_first_decisive_child
                  [Condition (VStr "currency") (VStr "eq") (VStr "EUR")]
                  [Condition (VStr "amount") (VStr "gt") (VStr "high")]
                  (Condition (VStr "amount") (VStr "gt") (VInt 100000))
                  (Demo.tx true 15000)) H1 H2).
Defined.

(** ** Dotted paths *)

Lemma split_dots_nonempty (s : string) : Py.split_dots s <> [].
Proof.
  destruct s as [| c s]; cbn [Py.split_dots]; [discriminate |].
  destruct (Ascii.eqb c "."); [discriminate |].
  destruct (Py.split_dots s); discriminate.
Qed.

Lemma split_dots_app (p q : string) :
  Py.split_dots (p ++ "." ++ q) = Py.split_dots p ++ Py.split_dots q.
Proof.
  induction p as [| c p IH].
  - reflexivity.
  - change (String c p ++ "." ++ q)%string with (String c (p ++ "." ++ q)).
    cbn [Py.split_dots]. rewrite IH.
    destruct (Ascii.eqb c "."); [reflexivity |].
    pose proof (split_dots_nonempty p) as Hne.
    destruct (Py.split_dots p) as [| seg segs]; [congruence | reflexivity].
Qed.

Lemma walk_None (parts : list string) : walk parts VNone = VNone.
Proof. now destruct parts. Qed.

Lemma walk_app (l1 l2 : list string) (v : value) :
  walk (l1 ++ l2) v = walk l2 (walk l1 v).
Proof.
  revert v. induction l1 as [| part l1 IH]; intros v; cbn [app walk]; [reflexivity |].
  destruct v; try (now rewrite walk_None).
  destruct (Py.lookup part d); [apply IH | now rewrite walk_None].
Qed.

(** X12: resolution of a dotted path goes segment by segment: resolving
    [p.q] in a transaction is resolving [q] in what [p] resolves to (and
    [None] when [p] is missing). *)
Theorem get_nested_composes (p q : string) (tx : value) :
  _get_nested (VStr (p ++ "." ++ q)) tx =
  (inner <- _get_nested (VStr p) tx ;; _get_nested (VStr q) inner).
Proof.
  unfold _get_nested. cbn [bind]. now rewrite split_dots_app, walk_app.
Qed.

(** ** The four operators *)

Lemma known_op_dispatch (path : string) (val tx v : value) :
  resolve (Py.split_dots path) tx = Some v ->
  v <> VNone ->
  Condition_eval (VStr path) (VStr "gt") val tx = Py.gt v val /\
  Condition_eval (VStr path) (VStr "lt") val tx = Py.lt v val /\
  Condition_eval (VStr path) (VStr "eq") val tx = Ok (Py.eq v val) /\
  Condition_eval (VStr path) (VStr "in") val tx = Py.contains val v.
Proof.
  intros Hres Hv. unfold Condition_eval.
  rewrite (get_nested_present _ _ Hres). cbn [bind].
  destruct v; try congruence; repeat split; reflexivity.
Qed.

Lemma Q_trichotomy (a b : Q) :
  (negb (Qle_bool a b), negb (Qle_bool b a), Qeq_bool a b) = (true, false, false) \/
  (negb (Qle_bool a b), negb (Qle_bool b a), Qeq_bool a b) = (false, true, false) \/
  (negb (Qle_bool a b), negb (Qle_bool b a), Qeq_bool a b) = (false, false, true).
Proof.
  destruct (Qle_bool a b) eqn:Hab; destruct (Qle_bool b a) eqn:Hba;
    destruct (Qeq_bool a b) eqn:Heq; cbn [negb]; auto; exfalso.
  - apply Qle_bool_iff in Hab, Hba.
    apply Qeq_bool_neq in Heq. apply Heq. now apply Qle_antisym.
  - apply Qeq_bool_iff in Heq.
    assert (H : Qle_bool b a = true) by (apply Qle_bool_iff; rewrite Heq; apply Qle_refl).
    congruence.
  - apply Qeq_bool_iff in Heq.
    assert (H : Qle_bool a b = true) by (apply Qle_bool_iff; rewrite Heq; apply Qle_refl).
    congruence.
  - apply Qeq_bool_iff in Heq.
    assert (H : Qle_bool a b = true) by (apply Qle_bool_iff; rewrite Heq; apply Qle_refl).
    congruence.
  - destruct (Qlt_le_dec a b) as [H | H].
    + apply Qlt_le_weak, Qle_bool_iff in H. congruence.
    + apply Qle_bool_iff in H. congruence.
Qed.

(** X13: when the field resolves to a bool, an int or a finite float and
    the operand is one of these too, none of gt, lt, eq raises and exactly
    one of them is true (a bool counts as 0 or 1).  NaN is left out: it is
    not a value of the model, and in Python it makes all three false. *)
Theorem numbers_compare_one_way (path : string) (val tx v : value) (a b : Q) :
  resolve (Py.split_dots path) tx = Some v ->
  finite_number v a ->
  finite_number val b ->
  exists g l e,
    Condition_eval (VStr path) (VStr "gt") val tx = Ok g /\
    Condition_eval (VStr path) (VStr "lt") val tx = Ok l /\
    Condition_eval (VStr path) (VStr "eq") val tx = Ok e /\
    ((g, l, e) = (true, false, false) \/
     (g, l, e) = (false, true, false) \/
     (g, l, e) = (false, false, true)).
Proof.
  unfold finite_number. intros Hres Ha Hb.
  assert (Hv : v <> VNone) by (intros ->; discriminate).
  destruct (known_op_dispatch path val tx Hres Hv) as [-> [-> [-> _]]].
  exists (negb (Qle_bool a b)), (negb (Qle_bool b a)), (Qeq_bool a b).
  split; [| split; [| split; [| apply Q_trichotomy]]].
  - unfold Py.gt. destruct val; try discriminate; cbn [Py.lt]; now rewrite Ha, Hb.
  - destruct v; try discriminate; cbn [Py.lt]; now rewrite Ha, Hb.
  - destruct v; try discriminate; cbn [Py.eq]; now rewrite Ha, Hb.
Qed.

Lemma numbers_compare_one_way_witness :
  resolve (Py.split_dots "amount") (Demo.tx true 15000) = Some (VInt 15000) /\
  finite_number (VInt 15000) (inject_Z 15000) /\
  finite_number (VFloat (1 # 2)) (1 # 2) /\
  exists g l e,
    Condition_eval (VStr "amount") (VStr "gt") (VFloat (1 # 2)) (Demo.tx true 15000) = Ok g /\
    Condition_eval (VStr "amount") (VStr "lt") (VFloat (1 # 2)) (Demo.tx true 15000) = Ok l /\
    Condition_eval (VStr "amount") (VStr "eq") (VFloat (1 # 2)) (Demo.tx true 15000) = Ok e /\
    ((g, l, e) = (true, false, false) \/
     (g, l, e) = (false, true, false) \/
     (g, l, e) = (false, false, true)).
Proof.
  split; [reflexivity |]. split; [reflexivity |]. split; [reflexivity |].
  exact (@numbers_compare_one_way "amount" (VFloat (1 # 2)) (Demo.tx true 15000)
           (VInt 15000) (inject_Z 15000) (1 # 2) eq_refl eq_refl eq_refl).
Defined.

(** X14: a str compared with a number is not a silent false: when the
    field resolves to a str and the operand is a number, or the other way
    round, gt, lt and in raise TypeError; only eq answers, with false. *)
Theorem str_against_number_raises (path : string) (val tx v : value) :
  resolve (Py.split_dots path) tx = Some v ->
  (exists s b, v = VStr s /\ Py.num val = Some b) \/
  (exists a s, Py.num v = Some a /\ val = VStr s) ->
  Condition_eval (VStr path) (VStr "gt") val tx = Err TypeError /\
  Condition_eval (VStr path) (VStr "lt") val tx = Err TypeError /\
  Condition_eval (VStr path) (VStr "in") val tx = Err TypeError /\
  Condition_eval (VStr path) (VStr "eq") val tx = Ok false.
Proof.
  intros Hres Hkinds.
  assert (Hv : v <> VNone).
  { destruct Hkinds as [[s [b [-> _]]] | [a [s [Ha _]]]];
      [discriminate | intros ->; discriminate]. }
  destruct (known_op_dispatch path val tx Hres Hv) as [-> [-> [-> ->]]].
  destruct Hkinds as [[s [b [-> Hb]]] | [a [s [Ha ->]]]].
  - destruct val; try discriminate; repeat split; reflexivity.
  - destruct v; try discriminate; repeat split; reflexivity.
Qed.

Lemma str_against_number_raises_witness :
  resolve (Py.split_dots "currency") (Demo.tx true 15000) = Some (VStr "EUR") /\
  Condition_eval (VStr "currency") (VStr "gt") (VInt 100) (Demo.tx true 15000)
  = Err TypeError /\
  Condition_eval (VStr "currency") (VStr "eq") (VInt 100) (Demo.tx true 15000)
  = Ok false.
Proof.
  split; [reflexivity |].
  pose proof (@str_against_number_raises "currency" (VInt 100) (Demo.tx true 15000)
                (VStr "EUR") eq_refl
                (or_introl (ex_intro _ "EUR" (ex_intro _ (inject_Z 100) (conj eq_refl eq_refl)))))
    as [Hgt [_ [_ Heq]]].
  split; [exact Hgt | exact Heq].
Defined.

(** * Further properties of the rule compiler *)

(** Induction on values through lists and dicts. *)
Lemma value_nested_ind (P : value -> Prop) :
  P VNone ->
  (forall b, P (VBool b)) ->
  (forall n, P (VInt n)) ->
  (forall q, P (VFloat q)) ->
  (forall s, P (VStr s)) ->
  (forall l, Forall P l -> P (VList l)) ->
  (forall d, Forall (fun kv => P (snd kv)) d -> P (VDict d)) ->
  forall v, P v.
Proof.
  intros HNone HBool HInt HFloat HStr HList HDict.
  fix IH 1.
  intros [| b | n | q | s | l | d];
    [exact HNone | apply HBool | apply HInt | apply HFloat | apply HStr | |].
  - apply HList. induction l as [| x l IHl]; constructor; [apply IH | exact IHl].
  - apply HDict. induction d as [| [k x] d IHd]; constructor; [apply IH | exact IHd].
Qed.

Lemma lookup_In (k : string) (d : list (string * value)) (v : value) :
  Py.lookup k d = Some v -> In (k, v) d.
Proof.
  induction d as [| [k' x] d IH]; cbn [Py.lookup]; [discriminate |].
  destruct (String.eqb_spec k' k) as [-> | _]; intros H.
  - injection H as ->. now left.
  - right. now apply IH.
Qed.

Lemma item_has_key (d : list (string * value)) (k : string) (v : value) :
  Py.item d k = Ok v -> Py.has_key k d = true.
Proof.
  unfold Py.item, Py.has_key. now destruct (Py.lookup k d).
Qed.

Lemma built_is_accepted : forall spec : value,
  ((exists n, build_node spec = Ok n) -> accepted spec) /\
  (forall cs, spec = VList cs ->
              Forall (fun c => (exists n, build_node c = Ok n) -> accepted c) cs).
Proof.
  apply value_nested_ind;
    try (intros; split; [intros [nd Hnd]; discriminate | intros cs Hcs; discriminate]).
  - intros l IH. split; [intros [nd Hnd]; discriminate |].
    intros cs Hcs. injection Hcs as <-.
    eapply Forall_impl; [| exact IH]. now intros c [Hc _].
  - intros d IH. split; [| intros cs Hcs; discriminate].
    intros [n Hn]. rewrite build_node_dict in Hn.
    destruct (Py.has_key "all" d || Py.has_key "any" d) eqn:Hkey.
    + cbv zeta in Hn. unfold Py.item in Hn.
      destruct (Py.lookup (if Py.has_key "all" d then "all" else "any") d)
        as [sub |] eqn:Hsub; [| discriminate].
      cbn [bind] in Hn.
      destruct sub as [| | | | s | cs | kvs]; try discriminate.
      * destruct s as [| c s]; [| discriminate].
        eapply accepted_no_items; [exact Hsub | now right].
      * cbn [Py.iter bind] in Hn.
        destruct (mapM build_node cs) as [children |] eqn:Hch; [| discriminate].
        apply accepted_composite with cs; [exact Hsub |].
        rewrite Forall_forall in IH.
        destruct (IH _ (lookup_In _ _ Hsub)) as [_ Hcs].
        specialize (Hcs cs eq_refl).
        apply mapM_Forall2 in Hch. clear - Hcs Hch.
        induction Hch as [| c n cs children Hc _ IHch]; constructor.
        -- inversion Hcs; subst. eauto.
        -- inversion Hcs; subst. now apply IHch.
      * destruct kvs as [| [k x] kvs]; [| discriminate].
        eapply accepted_no_items; [exact Hsub | now left].
    + apply orb_false_iff in Hkey. destruct Hkey as [Hall Hany].
      destruct (Py.item d "field") as [f |] eqn:Hf; [| discriminate].
      destruct (Py.item d "op") as [o |] eqn:Ho; [| discriminate].
      destruct (Py.item d "value") as [v |] eqn:Hv; [| discriminate].
      apply accepted_condition; try assumption; eapply item_has_key; eauto.
Qed.

Lemma accepted_is_built : forall spec : value,
  accepted spec -> exists n, build_node spec = Ok n.
Proof.
  fix IH 2. intros spec [d Hall Hany Hf Ho Hv | d cs Hsub Hcs | d sub Hsub Hempty].
  - apply build_node_total. now apply wf_condition.
  - assert (Hch : exists ns, mapM build_node cs = Ok ns).
    { clear Hsub. revert cs Hcs. fix IHcs 2. intros cs [| c cs' Hc Hcs'].
      - now exists [].
      - destruct (IH c Hc) as [n Hn]. destruct (IHcs cs' Hcs') as [ns Hns].
        simpl. rewrite Hn, Hns. simpl. eauto. }
    destruct Hch as [ns Hns].
    rewrite build_node_dict.
    assert (Hkey : Py.has_key "all" d || Py.has_key "any" d = true).
    { destruct (Py.has_key "all" d) eqn:E; [reflexivity |].
      simpl. unfold Py.has_key. now rewrite Hsub. }
    rewrite Hkey. cbv zeta. unfold Py.item. rewrite Hsub. simpl.
    rewrite Hns. simpl. eauto.
  - rewrite build_node_dict.
    assert (Hkey : Py.has_key "all" d || Py.has_key "any" d = true).
    { destruct (Py.has_key "all" d) eqn:E; [reflexivity |].
      simpl. unfold Py.has_key. now rewrite Hsub. }
    rewrite Hkey. cbv zeta. unfold Py.item. rewrite Hsub.
    destruct Hempty as [-> | ->]; simpl; eauto.
Qed.

(** X15: among the values of JSON and plain YAML (None, booleans,
    numbers, strings, sequences, mappings keyed by strings), [build_node]
    succeeds on exactly the accepted specifications: a mapping with field,
    op and value and neither all nor any, or a mapping whose all (any,
    when there is no all) is a sequence of accepted specifications, an
    empty mapping or an empty string.  Every other such value raises.
    (Python builds a composite from any iterable without items; the empty
    set and the empty bytes of tagged YAML are not values of [value].) *)
Theorem build_node_accepts_exactly (spec : value) :
  (exists n, build_node spec = Ok n) <-> accepted spec.
Proof.
  split; [apply built_is_accepted | apply accepted_is_built].
Qed.

(** X16: when a specification has the key all, the node depends on that
    entry only: any, field, op and value beside it are ignored. *)
Theorem all_takes_precedence (d : list (string * value)) (sub : value) :
  Py.lookup "all" d = Some sub ->
  build_node (VDict d) = build_node (VDict [("all", sub)]).
Proof.
  intros H. rewrite !build_node_dict.
  assert (Hkey : Py.has_key "all" d = true) by (unfold Py.has_key; now rewrite H).
  rewrite Hkey. cbn [orb]. cbv zeta. unfold Py.item. rewrite H. reflexivity.
Qed.

Lemma all_takes_precedence_witness :
  Py.lookup "all" [("any", VList [Demo.cond "amount" "gt" (VInt 1)]);
                   ("all", VList []);
                   ("field", VStr "amount")] = Some (VList []) /\
  build_node (VDict [("any", VList [Demo.cond "amount" "gt" (VInt 1)]);
                     ("all", VList []);
                     ("field", VStr "amount")])
  = build_node (VDict [("all", VList [])]).
Proof.
  split; [reflexivity |].
  exact (@all_takes_precedence
           [("any", VList [Demo.cond "amount" "gt" (VInt 1)]);
            ("all", VList []);
            ("field", VStr "amount")] (VList []) eq_refl).
Defined.

Lemma mapM_app {A B : Type} (f : A -> result B) (l1 l2 : list A) :
  mapM f (l1 ++ l2) = (ys1 <- mapM f l1 ;; ys2 <- mapM f l2 ;; Ok (ys1 ++ ys2)).
Proof.
  induction l1 as [| x l1 IH]; cbn [app mapM bind].
  - now destruct (mapM f l2).
  - destruct (f x); [| reflexivity]. cbn [bind]. rewrite IH.
    destruct (mapM f l1); [| reflexivity]. cbn [bind].
    now destruct (mapM f l2).
Qed.

Lemma mapM_of_Forall2 {A B : Type} (f : A -> result B) (l : list A) (ys : list B) :
  Forall2 (fun x y => f x = Ok y) l ys -> mapM f l = Ok ys.
Proof.
  induction 1 as [| x y l ys Hx _ IH]; cbn [mapM]; [reflexivity |].
  now rewrite Hx, IH.
Qed.

Section LoaderProperties.

Variable int_of_str : string -> option Z.

(** X17: loading is all or nothing and stops at the first rule that does
    not load: the error is that rule's, the rules after it are not looked
    at, and [update_policy] keeps the active rule set. *)
Theorem load_stops_at_first_error (good rest : list value) (bad : value)
    (e : error) (engine : list Rule) :
  Forall (fun r => exists rule, load_rule int_of_str r = Ok rule) good ->
  load_rule int_of_str bad = Err e ->
  load_rules_from_yaml int_of_str (VList (good ++ bad :: rest)) = Err e /\
  update_policy int_of_str (VList (good ++ bad :: rest)) engine = (engine, Http400 e).
Proof.
  intros Hgood Hbad.
  assert (Hload : load_rules_from_yaml int_of_str (VList (good ++ bad :: rest)) = Err e).
  { unfold load_rules_from_yaml. cbn [Py.iter bind]. rewrite mapM_app.
    destruct (mapM_total _ Hgood) as [rules [-> _]]. cbn [bind mapM].
    now rewrite Hbad. }
  split; [exact Hload |]. unfold update_policy. now rewrite Hload.
Qed.

(** X18: rules are loaded item by item and in order: loading a sequence
    that is two sequences put together gives the rules of the first
    followed by the rules of the second. *)
Theorem load_is_itemwise (first second : list value) :
  load_rules_from_yaml int_of_str (VList (first ++ second)) =
  (rules1 <- load_rules_from_yaml int_of_str (VList first) ;;
   rules2 <- load_rules_from_yaml int_of_str (VList second) ;;
   Ok (rules1 ++ rules2)).
Proof.
  unfold load_rules_from_yaml. cbn [Py.iter bind]. apply mapM_app.
Qed.

Lemma load_rule_app_agrees (r : value) (rule : Rule) :
  load_rule_app int_of_str r = Ok rule <-> load_rule int_of_str r = Ok rule.
Proof.
  unfold load_rule_app, load_rule.
  destruct (Py.get r "when" VNone) as [w |]; [| easy]. cbn [bind].
  assert (Hspec : (if negb (Py.truthy (if Py.truthy w then w else VDict []))
                   then always_spec
                   else if Py.truthy w then w else VDict [])
                  = (if Py.truthy w then w else always_spec)).
  { destruct (Py.truthy w) eqn:Hw; [now rewrite Hw | reflexivity]. }
  cbv zeta. rewrite Hspec.
  destruct (build_node (if Py.truthy w then w else always_spec)) as [nd |];
    destruct (Py.getitem r "name") as [n |]; cbn [bind]; easy.
Qed.

(** X19: the loader of [app.py], which builds the root before it reads
    the name, loads exactly the rule sets that the loader of [main.py]
    loads, with the same rules; the two can differ only in which error
    they report. *)
Theorem app_loader_agrees (raw : value) (rules : list Rule) :
  load_rules_from_yaml_app int_of_str raw = Ok rules <->
  load_rules_from_yaml int_of_str raw = Ok rules.
Proof.
  unfold load_rules_from_yaml_app, load_rules_from_yaml.
  destruct (Py.iter raw) as [items |]; [| easy]. cbn [bind].
  split; intros H; apply mapM_Forall2 in H; apply mapM_of_Forall2;
    (eapply Forall2_impl; [| exact H]); intros r rule; apply load_rule_app_agrees.
Qed.

(** X20: only a sequence yields rules: from a document that is not a
    sequence the loader returns no rule at all (it raises, unless the
    document is an empty mapping or an empty string). *)
Theorem only_a_sequence_yields_rules (raw : value) (rules : list Rule) :
  (forall items, raw <> VList items) ->
  load_rules_from_yaml int_of_str raw = Ok rules ->
  rules = [].
Proof.
  intros Hraw. unfold load_rules_from_yaml.
  destruct raw as [| | | | s | l | d]; try discriminate.
  - destruct s as [| c s]; cbn; [now intros [= <-] | discriminate].
  - now contradiction (Hraw l).
  - destruct d as [| [k v] d]; cbn; [now intros [= <-] | discriminate].
Qed.

End LoaderProperties.

Lemma load_stops_at_first_error_witness :
  Forall (fun r => exists rule, load_rule Demo.no_int r = Ok rule)
         [Demo.rule_spec "first" (VDict []) "allow" 0] /\
  load_rule Demo.no_int (VDict [("name", VStr "nameless action")]) = Err KeyError /\
  load_rules_from_yaml Demo.no_int
    (VList ([Demo.rule_spec "first" (VDict []) "allow" 0]
            ++ VDict [("name", VStr "nameless action")] :: [VInt 7])) = Err KeyError /\
  update_policy Demo.no_int
    (VList ([Demo.rule_spec "first" (VDict []) "allow" 0]
            ++ VDict [("name", VStr "nameless action")] :: [VInt 7])) Demo.rules
  = (Demo.rules, Http400 KeyError).
Proof.
  assert (H1 : Forall (fun r => exists rule, load_rule Demo.no_int r = Ok rule)
                      [Demo.rule_spec "first" (VDict []) "allow" 0]).
  { repeat constructor. eexists. reflexivity. }
  assert (H2 : load_rule Demo.no_int (VDict [("name", VStr "nameless action")])
               = Err KeyError) by reflexivity.
  split; [exact H1 |]. split; [exact H2 |].
  exact (@load_stops_at_first_error Demo.no_int _ [VInt 7] _ KeyError Demo.rules H1 H2).
Defined.

Lemma app_loader_agrees_witness :
  load_rules_from_yaml_app Demo.no_int Demo.DEFAULT_RULES = Ok Demo.rules /\
  load_rules_from_yaml Demo.no_int Demo.DEFAULT_RULES = Ok Demo.rules.
Proof.
  split; [reflexivity |].
  exact (proj1 (app_loader_agrees Demo.no_int Demo.DEFAULT_RULES Demo.rules) eq_refl).
Defined.

Lemma only_a_sequence_yields_rules_witness :
  (forall items, VDict [] <> VList items) /\
  load_rules_from_yaml Demo.no_int (VDict []) = Ok [] /\
  @nil Rule = [].
Proof.
  assert (H : forall items, VDict [] <> VList items) by discriminate.
  split; [exact H |]. split; [reflexivity |].
  exact (@only_a_sequence_yields_rules Demo.no_int (VDict []) [] H eq_refl).
Defined.

(** * Errors and order in [evaluate] *)

Lemma run_first_error (tx : value) (ordered : list Rule)
    (trace : list (value * bool)) (matched : list Rule) :
  Exists (fun r => raises (Node_eval (root r) tx)) ordered ->
  exists r e,
    In r ordered /\ Node_eval (root r) tx = Err e /\
    PolicyEngine.run tx ordered trace matched = Err e.
Proof.
  revert trace matched.
  induction ordered as [| x rest IH]; intros trace matched Hbad; [inversion Hbad |].
  cbn [PolicyEngine.run].
  destruct (Node_eval (root x) tx) as [b | e] eqn:Hx; cbn [bind].
  - assert (Hrest : Exists (fun r => raises (Node_eval (root r) tx)) rest).
    { inversion Hbad as [? ? [e He] | ? ? Hrest]; subst; [congruence | exact Hrest]. }
    destruct (IH (trace ++ [(name x, b)]) (if b then matched ++ [x] else matched) Hrest)
      as [r [e [Hr [He Hrun]]]].
    exists r, e. repeat split; [now right | exact He | exact Hrun].
  - exists x, e. repeat split; [now left | exact Hx].
Qed.

(** X21: an error raised by the condition of any rule fails the whole
    call: [evaluate] raises, and what it raises is the error of the root
    of one of the rules; no decision is made up. *)
Theorem condition_error_fails_the_call (rules : list Rule) (tx : value) (r : Rule) :
  Forall str_named rules ->
  In r rules ->
  raises (Node_eval (root r) tx) ->
  exists r' e,
    In r' rules /\ Node_eval (root r') tx = Err e /\
    PolicyEngine.evaluate rules tx = Err e.
Proof.
  intros Hnamed Hr Hbad.
  destruct (sorted_spec Hnamed) as [ordered [Hsort [Hperm _]]].
  destruct (@run_first_error tx ordered [] []) as [r' [e [Hr' [He Hrun]]]].
  - apply Exists_exists. exists r. split; [| exact Hbad].
    eapply Permutation_in; [exact Hperm | exact Hr].
  - exists r', e. repeat split; [| exact He |].
    + eapply Permutation_in; [symmetry; exact Hperm | exact Hr'].
    + unfold PolicyEngine.evaluate. now rewrite Hsort; cbn [bind]; rewrite Hrun.
Qed.

Lemma condition_error_fails_the_call_witness :
  Forall str_named [Demo.loud_flag; Sample.broken] /\
  In Sample.broken [Demo.loud_flag; Sample.broken] /\
  raises (Node_eval (root Sample.broken) (Demo.tx true 15000)) /\
  exists r' e,
    In r' [Demo.loud_flag; Sample.broken] /\
    Node_eval (root r') (Demo.tx true 15000) = Err e /\
    PolicyEngine.evaluate [Demo.loud_flag; Sample.broken] (Demo.tx true 15000) = Err e.
Proof.
  assert (H1 : Forall str_named [Demo.loud_flag; Sample.broken]).
  { repeat constructor; eexists; reflexivity. }
  assert (H2 : In Sample.broken [Demo.loud_flag; Sample.broken]) by (right; now left).
  assert (H3 : raises (Node_eval (root Sample.broken) (Demo.tx true 15000))).
  { exists TypeError. reflexivity. }
  split; [exact H1 |]. split; [exact H2 |]. split; [exact H3 |].
  exact (@condition_error_fails_the_call _ (Demo.tx true 15000) Sample.broken H1 H2 H3).
Defined.

Lemma comes_before_not_le (a b : Rule) : comes_before a b -> rule_le b a -> False.
Proof.
  intros [Hlt | [Hp Hlt]] [Hlt' | [Hp' Hle]]; try lia.
  apply ltb_leb in Hlt as Hle'.
  rewrite (String.leb_antisym _ _ Hle' Hle), ltb_irrefl in Hlt. discriminate.
Qed.

Lemma insert_last (r : Rule) (placed : list Rule) :
  str_named r -> Forall str_named placed ->
  Forall (fun x => rule_le x r) placed ->
  PolicyEngine.insert r placed = Ok (placed ++ [r]).
Proof.
  intros Hr Hnamed Hle.
  induction placed as [| x rest IH]; cbn [PolicyEngine.insert app]; [reflexivity |].
  inversion Hnamed; subst. inversion Hle; subst.
  destruct (sort_key_lt_str Hr H1) as [c [-> [Ht _]]]. cbn [bind].
  destruct c.
  - exfalso. apply (@comes_before_not_le r x); auto.
  - rewrite IH by assumption. reflexivity.
Qed.

Lemma sort_into_sorted_input (rules placed : list Rule) :
  Forall str_named (placed ++ rules) ->
  StronglySorted rule_le (placed ++ rules) ->
  PolicyEngine.sort_into placed rules = Ok (placed ++ rules).
Proof.
  revert placed.
  induction rules as [| r rules IH]; intros placed Hnamed Hsorted;
    cbn [PolicyEngine.sort_into].
  - now rewrite app_nil_r.
  - rewrite insert_last.
    + cbn [bind]. rewrite IH; rewrite <- app_assoc; auto.
    + rewrite Forall_forall in Hnamed. apply Hnamed, in_elt.
    + apply Forall_forall. intros x Hx. rewrite Forall_forall in Hnamed.
      apply Hnamed. apply in_or_app. now left.
    + clear - Hsorted. induction placed as [| x placed IHp]; [constructor |].
      cbn [app] in Hsorted. inversion Hsorted as [| ? ? Hs Hall]; subst.
      constructor; [| now apply IHp].
      rewrite Forall_forall in Hall. apply Hall, in_elt.
Qed.

(** X22: a rule set that is already listed in (descending priority,
    ascending name) order is evaluated in the order it is listed, rules
    of equal priority and name included: the sort is stable. *)
Theorem sorted_keeps_sorted_input (rules : list Rule) :
  Forall str_named rules ->
  StronglySorted rule_le rules ->
  PolicyEngine.sorted rules = Ok rules.
Proof.
  intros Hnamed Hsorted. now apply (@sort_into_sorted_input rules []).
Qed.

Lemma sorted_keeps_sorted_input_witness :
  Forall str_named [Demo.loud_flag; Demo.loud_flag; Demo.quiet_block] /\
  StronglySorted rule_le [Demo.loud_flag; Demo.loud_flag; Demo.quiet_block] /\
  PolicyEngine.sorted [Demo.loud_flag; Demo.loud_flag; Demo.quiet_block]
  = Ok [Demo.loud_flag; Demo.loud_flag; Demo.quiet_block].
Proof.
  assert (H1 : Forall str_named [Demo.loud_flag; Demo.loud_flag; Demo.quiet_block]).
  { repeat constructor; eexists; reflexivity. }
  assert (H2 : StronglySorted rule_le [Demo.loud_flag; Demo.loud_flag; Demo.quiet_block]).
  { repeat constructor; unfold rule_le; cbn; (left; lia) || (right; split; reflexivity). }
  split; [exact H1 |]. split; [exact H2 |].
  exact (@sorted_keeps_sorted_input _ H1 H2).
Defined.
